(** * film-metrics-dashboard: the scraper's fetch and aggregation pipeline

  A shallow embedding of [scraper/update_movies.py]: the two TMDB
  fetchers ([get_popular_movies], [get_representative_movies]) and the
  aggregation pass ([calculate_stats]), followed by the properties that
  the specification states about them.

  Conventions of the embedding.
  - A Python dict with a fixed set of possible keys is a record whose
    fields are of type [field A]: the key is absent ([Missing]), holds
    [None] ([PyNone]) or holds a value ([Val a]).
  - A Python expression that may raise evaluates to a [result]: [Ok v]
    or [Raise e].  Raising aborts the whole function, as in Python (no
    [try] appears in the source).
  - Python [int] is [Z].  Python [float] is [Q]: every finite float is a
    rational and comparisons of floats are exact, so all order-related
    code is embedded exactly; sums, division and [round] are embedded
    over exact rationals.
  - The HTTP collaborator is an oracle from request to [Response].
  - Logging calls are embedded only where evaluating their arguments can
    raise. *)

From Stdlib Require Import ZArith QArith Qround String List Sorted Permutation Lia.
From stdpp Require Import base option list gmap strings sorting pretty.

Local Open Scope string_scope.
Local Open Scope list_scope.
Local Open Scope Z_scope.

(** ** Python values and exceptions *)

Module Py.

Inductive pyerr : Type :=
| KeyError (key : string)
| TypeError.

Inductive result (A : Type) : Type :=
| Ok (a : A)
| Raise (e : pyerr).
Arguments Ok {A} a.
Arguments Raise {A} e.

Definition bind {A B : Type} (r : result A) (k : A -> result B) : result B :=
  match r with
  | Ok a => k a
  | Raise e => Raise e
  end.

(** One dict entry: absent key, [None], or a value. *)
Inductive field (A : Type) : Type :=
| Missing
| PyNone
| Val (a : A).
Arguments Missing {A}.
Arguments PyNone {A}.
Arguments Val {A} a.

(** [d[key]]: the stored value ([None] is a Python [None]), or [KeyError]. *)
Definition subscript {A : Type} (key : string) (f : field A) : result (option A) :=
  match f with
  | Missing => Raise (KeyError key)
  | PyNone => Ok None
  | Val a => Ok (Some a)
  end.

(** [d.get(key)]: [None] when the key is absent. *)
Definition get {A : Type} (f : field A) : option A :=
  match f with
  | Missing => None
  | PyNone => None
  | Val a => Some a
  end.

(** [d.get(key, default)]: a stored [None] is returned as it is. *)
Definition get_default {A : Type} (f : field A) (default : A) : option A :=
  match f with
  | Missing => Some default
  | PyNone => None
  | Val a => Some a
  end.

(** A value placed in a dict literal: the key is always present afterwards. *)
Definition store {A : Type} (v : option A) : field A :=
  match v with
  | None => PyNone
  | Some a => Val a
  end.

(** [range(1, n + 1)]. *)
Definition range1 (n : Z) : list Z := seqZ 1 n.

(** [l[:n]], with Python's reading of a negative bound. *)
Definition slice_to {A : Type} (n : Z) (l : list A) : list A :=
  if 0 <=? n then take (Z.to_nat n) l
  else take (Z.to_nat (Z.of_nat (length l) + n)) l.

(** [math.ceil(n / 20)] on integers. *)
Definition ceil_div20 (n : Z) : Z := - ((- n) / 20).

End Py.
Import Py.

Notation "'let!' x ':=' e 'in' k" := (Py.bind e (fun x => k))
(at level 10, x name, e at level 100, k at level 200).

(** ** Data model *)

(** A raw entry of a [results] array, as the API delivers it. *)
Record RawEntry : Type := {
r_id : option Z;
r_title : field string;
r_vote_average : field Q;
r_genre_ids : field (list Z);
r_poster_path : field string;
r_release_date : field string;
r_popularity : field Q;
r_vote_count : field Z
}.

(** A processed movie: the dict appended to [processed_movies], and also
  the element type of the list handed to [calculate_stats]. *)
Record Movie : Type := {
m_id : Z;
m_title : field string;
m_rating : field Q;
m_genres : field (list string);
m_poster_path : field string;
m_release_date : field string;
m_popularity : field Q;
m_vote_count : field Z
}.

(** An HTTP response: status code and the [results] key of its JSON body
  ([None] when the key is absent, read as the empty list). *)
Record Response : Type := {
status_code : Z;
results : option (list RawEntry)
}.

Definition results_or_empty (r : Response) : list RawEntry :=
match results r with
| Some l => l
| None => []
end.

(** The genre map: a dict from genre id to name, in insertion order. *)
Definition GenreMap : Type := list (Z * string).

Fixpoint genre_map_get (genre_map : GenreMap) (gid : Z) (default : string) : string :=
match genre_map with
| [] => default
| (k, name) :: rest =>
    if Z.eqb k gid then name else genre_map_get rest gid default
end.

(** ** The fetchers *)

Module Fetcher.

(** The local variables shared by both fetchers. *)
Record State : Type := {
  processed_movies : list Movie;
  seen_ids : gset Z;
  duplicates_count : Z
}.

Definition initial : State :=
  {| processed_movies := []; seen_ids := ∅; duplicates_count := 0 |}.

Definition count_duplicate (st : State) : State :=
  {| processed_movies := processed_movies st;
     seen_ids := seen_ids st;
     duplicates_count := duplicates_count st + 1 |}.

Definition mark_seen (i : Z) (st : State) : State :=
  {| processed_movies := processed_movies st;
     seen_ids := {[ i ]} ∪ seen_ids st;
     duplicates_count := duplicates_count st |}.

Definition append_movie (mv : Movie) (st : State) : State :=
  {| processed_movies := processed_movies st ++ [mv];
     seen_ids := seen_ids st;
     duplicates_count := duplicates_count st |}.

(** [m["id"]] *)
Definition entry_id (m : RawEntry) : result Z :=
  match r_id m with
  | Some i => Ok i
  | None => Raise (KeyError "id")
  end.

(** [[genre_map.get(gid, "Other") for gid in ids] if ids else ["Other"]] *)
Definition genre_names_of (genre_map : GenreMap) (ids : option (list Z)) : list string :=
  match ids with
  | Some (gid :: gids) =>
      map (fun g => genre_map_get genre_map g "Other") (gid :: gids)
  | _ => ["Other"]
  end.

(** The dict literal appended to [processed_movies]; [m["id"]] has
    already been evaluated to [i]. *)
Definition make_movie (i : Z) (genre_names : list string) (m : RawEntry) : result Movie :=
  let! title := subscript "title" (r_title m) in
  let! rating := subscript "vote_average" (r_vote_average m) in
  Ok {| m_id := i;
        m_title := store title;
        m_rating := store rating;
        m_genres := Val genre_names;
        m_poster_path := store (get (r_poster_path m));
        m_release_date := store (get (r_release_date m));
        m_popularity := store (get (r_popularity m));
        m_vote_count := store (get (r_vote_count m)) |}.

(** *** get_popular_movies *)

(** Body of [for m in movies_on_page]. *)
Definition popular_entry (genre_map : GenreMap) (st : State) (m : RawEntry) : result State :=
  let! i := entry_id m in
  if decide (i ∈ seen_ids st) then Ok (count_duplicate st)
  else
    let st1 := mark_seen i st in
    let! ids := subscript "genre_ids" (r_genre_ids m) in
    let! mv := make_movie i (genre_names_of genre_map ids) m in
    Ok (append_movie mv st1).

Fixpoint popular_entries (genre_map : GenreMap) (ms : list RawEntry) (st : State) : result State :=
  match ms with
  | [] => Ok st
  | m :: rest =>
      let! st' := popular_entry genre_map st m in
      popular_entries genre_map rest st'
  end.

(** Body of [for page in range(1, pages + 1)]. *)
Definition popular_page (fetch : Z -> Response) (genre_map : GenreMap)
    (st : State) (page : Z) : result State :=
  let response := fetch page in
  if status_code response =? 200
  then popular_entries genre_map (results_or_empty response) st
  else Ok st.

Fixpoint popular_pages (fetch : Z -> Response) (genre_map : GenreMap)
    (pages : list Z) (st : State) : result State :=
  match pages with
  | [] => Ok st
  | page :: rest =>
      let! st' := popular_page fetch genre_map st page in
      popular_pages fetch genre_map rest st'
  end.

(** The local variables at the [return] statement. *)
Definition popular_run (fetch : Z -> Response) (genre_map : GenreMap) (pages : Z) : result State :=
  popular_pages fetch genre_map (range1 pages) initial.

Definition get_popular_movies (fetch : Z -> Response) (genre_map : GenreMap)
    (pages : Z) : result (list Movie) :=
  let! st := popular_run fetch genre_map pages in
  Ok (processed_movies st).

(** *** get_representative_movies *)

(** [for m in movies_on_page], with [movies_collected_for_this_genre]
    threaded next to the shared state; the first test is the [break]. *)
Fixpoint representative_entries (genre_map : GenreMap) (target_per_genre : Z)
    (ms : list RawEntry) (st : State) (collected : Z) : result (State * Z) :=
  match ms with
  | [] => Ok (st, collected)
  | m :: rest =>
      if target_per_genre <=? collected then Ok (st, collected)
      else
        let! i := entry_id m in
        if decide (i ∈ seen_ids st)
        then representative_entries genre_map target_per_genre rest
               (count_duplicate st) (collected + 1)
        else
          let st1 := mark_seen i st in
          let! mv := make_movie i (genre_names_of genre_map (get (r_genre_ids m))) m in
          representative_entries genre_map target_per_genre rest
            (append_movie mv st1) (collected + 1)
  end.

(** [for page in range(1, pages_to_fetch + 1)] for one genre; each of
    the three [break]s leaves the loop with the state reached so far. *)
Fixpoint representative_pages (fetch : Z -> Z -> Response) (genre_map : GenreMap)
    (target_per_genre genre_id : Z) (pages : list Z)
    (st : State) (collected : Z) : result State :=
  match pages with
  | [] => Ok st
  | page :: rest =>
      if target_per_genre <=? collected then Ok st
      else
        let response := fetch genre_id page in
        if status_code response =? 200 then
          match results_or_empty response with
          | [] => Ok st
          | movies_on_page =>
              let! sc := representative_entries genre_map target_per_genre
                      movies_on_page st collected in
              representative_pages fetch genre_map target_per_genre genre_id rest
                (fst sc) (snd sc)
          end
        else Ok st
  end.

(** [for genre_id, genre_name in genre_map.items()]; [genre_map] is the
    whole map, [genres] the items still to visit. *)
Fixpoint representative_genres (fetch : Z -> Z -> Response) (genre_map : GenreMap)
    (target_per_genre : Z) (pages : list Z)
    (genres : list (Z * string)) (st : State) : result State :=
  match genres with
  | [] => Ok st
  | (genre_id, _) :: rest =>
      let! st' := representative_pages fetch genre_map target_per_genre genre_id pages st 0 in
      representative_genres fetch genre_map target_per_genre pages rest st'
  end.

Definition pages_to_fetch (target_per_genre : Z) : Z := ceil_div20 target_per_genre.

(** The local variables at the [return] statement. *)
Definition representative_run (fetch : Z -> Z -> Response) (genre_map : GenreMap)
    (target_per_genre : Z) : result State :=
  representative_genres fetch genre_map target_per_genre
    (range1 (pages_to_fetch target_per_genre)) genre_map initial.

Definition get_representative_movies (fetch : Z -> Z -> Response) (genre_map : GenreMap)
    (target_per_genre : Z) : result (list Movie) :=
  let! st := representative_run fetch genre_map target_per_genre in
  Ok (processed_movies st).

(** The link between [seen_ids] and [processed_movies] that both loops
    maintain between two raw entries. *)
Definition coherent (st : State) : Prop :=
  seen_ids st = list_to_set (m_id <$> processed_movies st)
  /\ NoDup (m_id <$> processed_movies st).

(** Two relations between an earlier and a later state of a run:
    coherence is kept, and the list of retained movies only grows at its
    end. *)
Definition keeps_coherent (st st' : State) : Prop := coherent st -> coherent st'.

Definition extends (st st' : State) : Prop :=
  processed_movies st `prefix_of` processed_movies st'.

(** An id once seen stays seen, and the duplicate count never drops. *)
Definition remembers (st st' : State) : Prop :=
  seen_ids st ⊆ seen_ids st' /\ duplicates_count st <= duplicates_count st'.

End Fetcher.

(** ** The aggregation pass *)

Module Aggregator.

(** One record of [genre_extended_stats]. *)
Record GenreStats : Type := {
  genre_name : string;
  average_rating : Q;
  average_popularity : Q;
  total_votes : Z;
  movie_count : Z;
  top_movies : list Movie
}.

(** [x > 0], which raises [TypeError] on [None]. *)
Definition positiveZ (v : option Z) : result bool :=
  match v with
  | Some z => Ok (0 <? z)
  | None => Raise TypeError
  end.

Definition positiveQ (v : option Q) : result bool :=
  match v with
  | Some q => Ok (negb (Qle_bool q 0))
  | None => Raise TypeError
  end.

(** [m.get("vote_count", 0) > 0 and m.get("rating", 0) > 0]; the second
    operand is evaluated only when the first is true. *)
Definition has_rating (m : Movie) : result bool :=
  let! votes_ok := positiveZ (get_default (m_vote_count m) 0) in
  if votes_ok then positiveQ (get_default (m_rating m) 0%Q) else Ok false.

(** [stats] is a [defaultdict(list)]: its items in insertion order.
    [stats_append stats genre m] is [stats[genre].append(m)]. *)
Fixpoint stats_append (stats : list (string * list Movie)) (genre : string) (m : Movie)
    : list (string * list Movie) :=
  match stats with
  | [] => [(genre, [m])]
  | (k, l) :: rest =>
      if decide (k = genre) then (k, l ++ [m]) :: rest
      else (k, l) :: stats_append rest genre m
  end.

(** [for genre in genres: stats[genre].append(m)] *)
Definition append_to_genres (stats : list (string * list Movie)) (genres : list string)
    (m : Movie) : list (string * list Movie) :=
  fold_left (fun s genre => stats_append s genre m) genres stats.

(** [m["genres"]] used as an iterable of strings. *)
Definition genres_of (m : Movie) : result (list string) :=
  let! v := subscript "genres" (m_genres m) in
  match v with
  | Some genres => Ok genres
  | None => Raise TypeError
  end.

(** The first loop: [for m in movies], threading [stats] and
    [skipped_movies]. *)
Fixpoint group_movies (movies : list Movie) (stats : list (string * list Movie))
    (skipped_movies : list Movie) : result (list (string * list Movie) * list Movie) :=
  match movies with
  | [] => Ok (stats, skipped_movies)
  | m :: rest =>
      let! keep := has_rating m in
      if keep then
        let! genres := genres_of m in
        group_movies rest (append_to_genres stats genres m) skipped_movies
      else group_movies rest stats (skipped_movies ++ [m])
  end.

(** The warning written for one skipped movie; only the evaluation of
    its arguments is embedded: [", ".join(sm["genres"])], then
    [sm['title']] (the two [.get] calls cannot raise). *)
Definition log_skipped_movie (sm : Movie) : result unit :=
  let! _ := genres_of sm in
  let! _ := subscript "title" (m_title sm) in
  Ok tt.

Fixpoint log_skipped (skipped_movies : list Movie) : result unit :=
  match skipped_movies with
  | [] => Ok tt
  | sm :: rest =>
      let! _ := log_skipped_movie sm in
      log_skipped rest
  end.

(** Element of [sum(m["rating"] for m in genre_movies)]. *)
Definition rating_term (m : Movie) : result Q :=
  let! v := subscript "rating" (m_rating m) in
  match v with
  | Some q => Ok q
  | None => Raise TypeError
  end.

(** Element of [sum(m.get("popularity", 0) for m in genre_movies)]:
    adding [None] raises [TypeError]. *)
Definition popularity_term (m : Movie) : result Q :=
  match get_default (m_popularity m) 0%Q with
  | Some q => Ok q
  | None => Raise TypeError
  end.

(** Element of [sum(m.get("vote_count", 0) for m in genre_movies)]. *)
Definition vote_count_term (m : Movie) : result Z :=
  match get_default (m_vote_count m) 0 with
  | Some z => Ok z
  | None => Raise TypeError
  end.

(** The terms of a generator, left to right; the first failure wins. *)
Fixpoint terms {A : Type} (term : Movie -> result A) (l : list Movie) : result (list A) :=
  match l with
  | [] => Ok []
  | m :: rest =>
      let! x := term m in
      let! xs := terms term rest in
      Ok (x :: xs)
  end.

Definition sumQ (l : list Q) : Q := fold_left Qplus l 0%Q.
Definition sumZ (l : list Z) : Z := fold_left Z.add l 0.

(** [round(x, 2)] over exact rationals: nearest multiple of 1/100,
    halves to the even neighbour. *)
Definition round_half_even (q : Q) : Z :=
  let f := Qfloor q in
  match (q - inject_Z f ?= 1 # 2)%Q with
  | Lt => f
  | Gt => f + 1
  | Eq => if Z.even f then f else f + 1
  end.

Definition round2 (q : Q) : Q :=
  Qred (inject_Z (round_half_even (q * 100)) / 100).

(** [sorted(genre_movies, key=lambda x: x["rating"], reverse=True)] on
    the list decorated with its keys.  Python's sort is stable, also
    with [reverse=True]: an element goes in front of the first element
    of the sorted remainder whose key is not greater than its own. *)
Fixpoint insert_desc (x : Q * Movie) (l : list (Q * Movie)) : list (Q * Movie) :=
  match l with
  | [] => [x]
  | y :: rest =>
      if Qle_bool (fst y) (fst x) then x :: y :: rest
      else y :: insert_desc x rest
  end.

Fixpoint sorted_desc (l : list (Q * Movie)) : list (Q * Movie) :=
  match l with
  | [] => []
  | x :: rest => insert_desc x (sorted_desc rest)
  end.

(** Body of [for genre, genre_movies in stats.items()] for a non-empty
    group.  The keys of the sort are the values [m["rating"]] already
    read for the average. *)
Definition genre_record (top_count : Z) (genre : string) (genre_movies : list Movie)
    : result GenreStats :=
  let count := Z.of_nat (length genre_movies) in
  let! ratings := terms rating_term genre_movies in
  let avg_rating := (sumQ ratings / inject_Z count)%Q in
  let! popularities := terms popularity_term genre_movies in
  let avg_popularity := (sumQ popularities / inject_Z count)%Q in
  let! votes := terms vote_count_term genre_movies in
  let top := slice_to top_count (map snd (sorted_desc (zip ratings genre_movies))) in
  Ok {| genre_name := genre;
        average_rating := round2 avg_rating;
        average_popularity := round2 avg_popularity;
        total_votes := sumZ votes;
        movie_count := count;
        top_movies := top |}.

(** The second loop, with its [continue] on an empty group. *)
Fixpoint genre_records (top_count : Z) (stats : list (string * list Movie))
    : result (list GenreStats) :=
  match stats with
  | [] => Ok []
  | (genre, genre_movies) :: rest =>
      match genre_movies with
      | [] => genre_records top_count rest
      | _ =>
          let! s := genre_record top_count genre genre_movies in
          let! ss := genre_records top_count rest in
          Ok (s :: ss)
      end
  end.

Definition calculate_stats (movies : list Movie) (top_count : Z) : result (list GenreStats) :=
  let! grouped := group_movies movies [] [] in
  let! _ := log_skipped (snd grouped) in
  genre_records top_count (fst grouped).

End Aggregator.

(** ** Reference notions used by the statements *)

Module Reference.
Import Aggregator.

(** The exclusion rule in the specification's words: [vote_count <= 0]
    or [rating <= 0], an absent key counting as 0. *)
Definition nonpositiveZ (f : field Z) : bool :=
  match get_default f 0 with
  | Some z => z <=? 0
  | None => false
  end.

Definition nonpositiveQ (f : field Q) : bool :=
  match get_default f 0%Q with
  | Some q => Qle_bool q 0
  | None => false
  end.

Definition excluded (m : Movie) : bool :=
  nonpositiveZ (m_vote_count m) || nonpositiveQ (m_rating m).

Definition qualifying (m : Movie) : bool := negb (excluded m).

(** The genre names a movie carries, and its rating, as plain values. *)
Definition genre_list (m : Movie) : list string :=
  match m_genres m with
  | Val genres => genres
  | _ => []
  end.

Definition rating_value (m : Movie) : Q :=
  match m_rating m with
  | Val q => q
  | _ => 0%Q
  end.

(** Every (genre, movie) membership of the qualifying movies, in the
    order of the input collection. *)
Definition memberships (movies : list Movie) : list (string * Movie) :=
  flat_map (fun m => map (fun genre => (genre, m)) (genre_list m))
           (List.filter qualifying movies).

(** The group of one genre: its movies in input order, once per
    occurrence of the genre name. *)
Definition group_of (genre : string) (pairs : list (string * Movie)) : list Movie :=
  map snd (List.filter (fun p => bool_decide (fst p = genre)) pairs).

(** The names of a list in order of first occurrence. *)
Definition note_name (names : list string) (name : string) : list string :=
  if decide (name ∈ names) then names else names ++ [name].

Definition first_occurrences (names : list string) : list string :=
  fold_left note_name names [].

(** The dict built from a list of memberships. *)
Definition stats_of (pairs : list (string * Movie)) (stats : list (string * list Movie))
    : list (string * list Movie) :=
  fold_left (fun s p => stats_append s (fst p) (snd p)) pairs stats.

(** How often a genre name occurs in a list of names, and the group
    written with these multiplicities. *)
Definition occurrences (genre : string) (names : list string) : nat :=
  length (List.filter (fun name => bool_decide (name = genre)) names).

Definition group_with_multiplicity (genre : string) (movies : list Movie) : list Movie :=
  flat_map (fun m => replicate (occurrences genre (genre_list m)) m)
           (List.filter qualifying movies).

(** The popularity of a movie read with the default 0. *)
Definition popularity_value (m : Movie) : Q :=
  match m_popularity m with
  | Val q => q
  | _ => 0%Q
  end.

(** [stats[genre]] read without inserting: the empty list when the key
    is absent. *)
Fixpoint group_in (stats : list (string * list Movie)) (genre : string) : list Movie :=
  match stats with
  | [] => []
  | (k, l) :: rest => if decide (k = genre) then l else group_in rest genre
  end.

(** A list of movies next to its sort keys, and the order [sorted]
    gives it. *)
Definition decorate (l : list Movie) : list (Q * Movie) :=
  zip (map rating_value l) l.

Definition ranking (l : list Movie) : list Movie :=
  map snd (sorted_desc (decorate l)).

(** The order on the decorated list, the test for one key, and the
    agreement of a key with the movie next to it. *)
Definition key_ge (x y : Q * Movie) : Prop := (fst y <= fst x)%Q.

Definition has_key (q : Q) (x : Q * Movie) : bool := Qeq_bool (fst x) q.

Definition consistent (x : Q * Movie) : Prop := fst x = rating_value (snd x).

(** Descending order of ratings, and the movies rated exactly [q]. *)
Definition rating_ge (m1 m2 : Movie) : Prop := (rating_value m2 <= rating_value m1)%Q.

Definition rated (q : Q) (l : list Movie) : list Movie :=
  List.filter (fun m => Qeq_bool (rating_value m) q) l.

(** The specification's reading of a fetcher's result, a pair of the
    items and the duplicate count: the number of duplicates of a run can
    be read off the value the fetcher returns. *)
Definition returns_duplicate_count {I : Type}
    (run : I -> result Fetcher.State) (fetcher : I -> result (list Movie)) : Prop :=
  exists count_of : list Movie -> Z,
    forall input st items,
      run input = Ok st -> fetcher input = Ok items ->
      count_of items = Fetcher.duplicates_count st.

End Reference.

(** ** Sample data *)

Module Samples.
Import Fetcher Aggregator.

Definition genre_map : GenreMap := [(28, "Action"); (35, "Comedy")].

Definition raw (i : Z) (title : string) (genre_ids : field (list Z)) : RawEntry :=
  {| r_id := Some i;
     r_title := Val title;
     r_vote_average := Val (8 # 1)%Q;
     r_genre_ids := genre_ids;
     r_poster_path := PyNone;
     r_release_date := Val "1995-12-15";
     r_popularity := Val (42 # 1)%Q;
     r_vote_count := Val 10 |}.

Definition heat : RawEntry := raw 949 "Heat" (Val [28; 35]).
Definition untagged : RawEntry := raw 7 "Untagged" Missing.

Definition page_of (l : list RawEntry) : Response :=
  {| status_code := 200; results := Some l |}.

Definition unavailable : Response :=
  {| status_code := 503; results := None |}.

Definition movie (i : Z) (rating : Q) (votes : Z) (genres : list string) : Movie :=
  {| m_id := i;
     m_title := Val "title";
     m_rating := Val rating;
     m_genres := Val genres;
     m_poster_path := PyNone;
     m_release_date := PyNone;
     m_popularity := Missing;
     m_vote_count := Val votes |}.

(** Raw entries that lack the [popularity] key, or the [vote_count]
    key, and the movies both fetchers make of them. *)
Definition no_popularity : RawEntry :=
  {| r_id := Some 11;
     r_title := Val "Ran";
     r_vote_average := Val (8 # 1)%Q;
     r_genre_ids := Val [28];
     r_poster_path := Missing;
     r_release_date := Missing;
     r_popularity := Missing;
     r_vote_count := Val 10 |}.

Definition no_vote_count : RawEntry :=
  {| r_id := Some 12;
     r_title := Val "Ikiru";
     r_vote_average := Val (8 # 1)%Q;
     r_genre_ids := Val [28];
     r_poster_path := Missing;
     r_release_date := Missing;
     r_popularity := Val (3 # 1)%Q;
     r_vote_count := Missing |}.

Definition ran : Movie :=
  {| m_id := 11;
     m_title := Val "Ran";
     m_rating := Val (8 # 1)%Q;
     m_genres := Val ["Action"];
     m_poster_path := PyNone;
     m_release_date := PyNone;
     m_popularity := PyNone;
     m_vote_count := Val 10 |}.

Definition ikiru : Movie :=
  {| m_id := 12;
     m_title := Val "Ikiru";
     m_rating := Val (8 # 1)%Q;
     m_genres := Val ["Action"];
     m_poster_path := PyNone;
     m_release_date := PyNone;
     m_popularity := Val (3 # 1)%Q;
     m_vote_count := PyNone |}.

(** The scenario of the specification: two rated action movies and one
    without votes or rating, and the record expected for them. *)
Definition shelf : list Movie :=
  [movie 1 (8 # 1) 10 ["Action"]; movie 2 (6 # 1) 5 ["Action"]; movie 3 0 0 ["Action"]].

Definition action_record : GenreStats :=
  {| genre_name := "Action";
     average_rating := (7 # 1)%Q;
     average_popularity := 0%Q;
     total_votes := 15;
     movie_count := 2;
     top_movies := [movie 1 (8 # 1) 10 ["Action"]; movie 2 (6 # 1) 5 ["Action"]] |}.

(** A movie whose two genre ids were both unknown to the genre map. *)
Definition twice_other : Movie := movie 5 (6 # 1) 4 ["Other"; "Other"].

(** Every genre lists [heat] on its first page and nothing afterwards. *)
Definition discover_heat (genre_id page : Z) : Response :=
  if page =? 1 then page_of [heat] else page_of [].

(** Only the first genre lists [heat]. *)
Definition discover_action_only (genre_id page : Z) : Response :=
  if (genre_id =? 28) && (page =? 1) then page_of [heat] else page_of [].

(** [heat] as both fetchers retain it, and the state after a run that
    met it a second time. *)
Definition heat_movie : Movie :=
  {| m_id := 949;
     m_title := Val "Heat";
     m_rating := Val (8 # 1)%Q;
     m_genres := Val ["Action"; "Comedy"];
     m_poster_path := PyNone;
     m_release_date := Val "1995-12-15";
     m_popularity := Val (42 # 1)%Q;
     m_vote_count := Val 10 |}.

Definition heat_state : State :=
  {| processed_movies := [heat_movie]; seen_ids := {[ 949 ]}; duplicates_count := 1 |}.

(** The popular listing: one page holding [heat] twice, or once. *)
Definition popular_twice (page : Z) : Response := page_of [heat; heat].
Definition popular_once (page : Z) : Response := page_of [heat].

(** The popular listing whose second page fails. *)
Definition popular_gap (page : Z) : Response :=
  if page =? 2 then unavailable else page_of [raw page "Page" (Val [28])].

(** The discover listing where the first genre fails at once. *)
Definition discover_gap (genre_id page : Z) : Response :=
  if genre_id =? 28 then unavailable else discover_heat genre_id page.

End Samples.

(** ** The genre catalog *)

Module Catalog.

(** One element of the [genres] array of the genre list response. *)
Record RawGenre : Type := {
  g_id : option Z;
  g_name : option string
}.

(** The response of the genre list request: status code and the
    [genres] key of its JSON body ([None] when absent, read as []). *)
Record GenresResponse : Type := {
  genres_status : Z;
  genres_listed : option (list RawGenre)
}.

Definition genres_or_empty (r : GenresResponse) : list RawGenre :=
  match genres_listed r with
  | Some l => l
  | None => []
  end.

(** [d[k] = v] on the genre map: a key already present keeps its place
    and takes the new value, a new key goes to the end. *)
Fixpoint genre_map_set (genre_map : GenreMap) (k : Z) (v : string) : GenreMap :=
  match genre_map with
  | [] => [(k, v)]
  | (k', v') :: rest =>
      if Z.eqb k' k then (k', v) :: rest
      else (k', v') :: genre_map_set rest k v
  end.

(** [{g["id"]: g["name"] for g in genres}], with the dict built so far. *)
Fixpoint collect_genres (genres : list RawGenre) (acc : GenreMap) : result GenreMap :=
  match genres with
  | [] => Ok acc
  | g :: rest =>
      match g_id g with
      | None => Raise (KeyError "id")
      | Some k =>
          match g_name g with
          | None => Raise (KeyError "name")
          | Some v => collect_genres rest (genre_map_set acc k v)
          end
      end
  end.

Definition fetch_genre_map (response : GenresResponse) : result GenreMap :=
  if genres_status response =? 200
  then collect_genres (genres_or_empty response) []
  else Ok [].

End Catalog.

(** ** Writing to the document store *)

Module Publisher.
Import Aggregator.

(** What a document holds: a movie dict or a record of genre statistics. *)
Inductive Document : Type :=
| MovieDoc (m : Movie)
| GenreDoc (s : GenreStats).

(** [batch.set(db.collection(c).document(d), data)] *)
Record Write : Type := {
  collection : string;
  document : string;
  data : Document
}.

Definition batch_size : nat := 500.

(** [range(0, stop, step)] for a positive step. *)
Definition range_by (stop step : nat) : list nat :=
  map (fun k => k * step)%nat (seq 0 ((stop + step - 1) / step)).

(** [l[i : i + n]] for indices within the natural numbers. *)
Definition slice {A : Type} (i n : nat) (l : list A) : list A := take n (drop i l).

(** [str(movie["id"])] names the document of a movie. *)
Definition movie_write (movie : Movie) : Write :=
  {| collection := "movies"; document := pretty (m_id movie); data := MovieDoc movie |}.

(** The batches committed by the first loop, one per offset. *)
Definition movie_batches (movies : list Movie) : list (list Write) :=
  map (fun i => map movie_write (slice i batch_size movies))
      (range_by (length movies) batch_size).

(** The store: documents by collection and document name.  A write
    replaces the whole document; a commit applies the writes of a batch in
    order. *)
Definition apply_write (store : gmap (string * string) Document) (w : Write)
    : gmap (string * string) Document :=
  <[ (collection w, document w) := data w ]> store.

Definition commit (store : gmap (string * string) Document) (batch : list Write)
    : gmap (string * string) Document :=
  fold_left apply_write batch store.

Definition commit_all (store : gmap (string * string) Document) (batches : list (list Write))
    : gmap (string * string) Document :=
  fold_left commit batches store.

(** [db.recursive_delete(db.collection(col))] *)
Definition recursive_delete (col : string) (store : gmap (string * string) Document)
    : gmap (string * string) Document :=
  filter (fun entry => fst (fst entry) <> col) store.

(** [clear_firestore]: both collections, one after the other. *)
Definition clear_firestore (store : gmap (string * string) Document)
    : gmap (string * string) Document :=
  fold_left (fun st col => recursive_delete col st) ["movies"; "genres"] store.

Section Lower.
(** [str.lower], the one string routine of the host language used here. *)
Variable lower : string -> string.

Definition genre_write (s : GenreStats) : Write :=
  {| collection := "genres"; document := lower (genre_name s); data := GenreDoc s |}.

(** [upload_to_firebase] as the sequence of batches it commits: the
    batches of movies, then a single batch holding every genre record. *)
Definition upload_to_firebase (movies : list Movie) (stats : list GenreStats)
    : list (list Write) :=
  movie_batches movies ++ [map genre_write stats].

(** The body of the script once the store client exists: the batches it
    commits, or the exception that ends it. *)
Definition main (genres_response : Catalog.GenresResponse)
    (discover : Z -> Z -> Response) : result (list (list Write)) :=
  let! genre_map := Catalog.fetch_genre_map genres_response in
  let! raw_data := Fetcher.get_representative_movies discover genre_map 100 in
  let! genre_stats := calculate_stats raw_data 10 in
  Ok (upload_to_firebase raw_data genre_stats).

End Lower.

End Publisher.

(** ** Notions used to account for what the functions do *)

Module Accounting.
Import Fetcher Aggregator Reference.

(** The elements of a list in order of first occurrence. *)
Definition note {A : Type} `{EqDecision A} (seen : list A) (x : A) : list A :=
  if decide (x ∈ seen) then seen else seen ++ [x].

Definition firsts {A : Type} `{EqDecision A} (l : list A) : list A :=
  fold_left note l [].

(** The raw entries the popular listing delivers: those of the pages
    answered with status 200, in page order. *)
Definition page_entries (fetch : Z -> Response) (page : Z) : list RawEntry :=
  if status_code (fetch page) =? 200 then results_or_empty (fetch page) else [].

Definition listed_entries (fetch : Z -> Response) (pages : Z) : list RawEntry :=
  flat_map (page_entries fetch) (range1 pages).

(** The raw entries a run has consumed: retained or counted as duplicate. *)
Definition load (st : State) : Z :=
  Z.of_nat (length (processed_movies st)) + duplicates_count st.

(** The shape of a movie dict built by a fetcher for a given genre map. *)
Definition fetched_shape (genre_map : GenreMap) (m : Movie) : Prop :=
  m_title m <> Missing /\ m_rating m <> Missing
  /\ m_poster_path m <> Missing /\ m_release_date m <> Missing
  /\ m_popularity m <> Missing /\ m_vote_count m <> Missing
  /\ exists names,
       m_genres m = Val names /\ names <> []
       /\ forall name, name ∈ names -> name = "Other" \/ name ∈ map snd genre_map.


(** What [calculate_stats] needs of one movie in order to return: the
    test of the first loop can be evaluated; a movie it keeps has a list
    of genres and, if that list is not empty, a popularity other than
    [None]; a movie it puts aside has a list of genres and a title, for
    the warning. *)
Definition admissible (m : Movie) : Prop :=
  match has_rating m with
  | Raise _ => False
  | Ok true =>
      exists genres, m_genres m = Val genres
                     /\ (genres <> [] -> m_popularity m <> PyNone)
  | Ok false =>
      (exists genres, m_genres m = Val genres) /\ m_title m <> Missing
  end.

(** The number of movies filed in a dict of groups. *)
Definition total_size (stats : list (string * list Movie)) : nat :=
  sum_list_with (fun p => length (snd p)) stats.

(** The name the genre list gives to an id: that of the last entry
    carrying the id. *)
Fixpoint listed_name (k : Z) (genres : list Catalog.RawGenre) : option string :=
  match genres with
  | [] => None
  | g :: rest =>
      match listed_name k rest with
      | Some v => Some v
      | None => if decide (Catalog.g_id g = Some k) then Catalog.g_name g else None
      end
  end.

(** A genre entry with both of its keys. *)
Definition complete (g : Catalog.RawGenre) : Prop :=
  is_Some (Catalog.g_id g) /\ is_Some (Catalog.g_name g).

(** The document a sequence of writes leaves under a key: that of the
    last write to the key. *)
Fixpoint last_write (key : string * string) (ws : list Publisher.Write)
    : option Publisher.Document :=
  match ws with
  | [] => None
  | w :: rest =>
      match last_write key rest with
      | Some d => Some d
      | None =>
          if decide ((Publisher.collection w, Publisher.document w) = key)
          then Some (Publisher.data w)
          else None
      end
  end.

End Accounting.

(** ** Sample data for a whole run *)

Module Fixtures.
Import Aggregator.

(** A genre list naming the two genres of [Samples.genre_map]. *)
Definition listed_genres : Catalog.GenresResponse :=
  {| Catalog.genres_status := 200;
     Catalog.genres_listed :=
       Some [ {| Catalog.g_id := Some 28; Catalog.g_name := Some "Action" |};
              {| Catalog.g_id := Some 35; Catalog.g_name := Some "Comedy" |} ] |}.

(** A genre list whose entry lacks its name, and a refused request. *)
Definition nameless_genre : Catalog.GenresResponse :=
  {| Catalog.genres_status := 200;
     Catalog.genres_listed :=
       Some [ {| Catalog.g_id := Some 28; Catalog.g_name := None |} ] |}.

Definition refused : Catalog.GenresResponse :=
  {| Catalog.genres_status := 401; Catalog.genres_listed := None |}.

(** The records of the run that meets [Samples.heat] under both genres. *)
Definition heat_record (genre : string) : GenreStats :=
  {| genre_name := genre;
     average_rating := (8 # 1)%Q;
     average_popularity := (42 # 1)%Q;
     total_votes := 10;
     movie_count := 1;
     top_movies := [Samples.heat_movie] |}.

Definition heat_batches : list (list Publisher.Write) :=
  Publisher.upload_to_firebase (fun name => name) [Samples.heat_movie]
    [heat_record "Action"; heat_record "Comedy"].

End Fixtures.

(** ** Reasoning about [result] *)

Lemma bind_Ok {A B : Type} (r : result A) (k : A -> result B) (b : B) :
Py.bind r k = Ok b <-> exists a, r = Ok a /\ k a = Ok b.
Proof.
destruct r as [a|e]; simpl; split.
- intros H. exists a. split; [reflexivity | exact H].
- intros (a' & Ha & Hk). injection Ha as ->. exact Hk.
- discriminate.
- intros (a' & Ha & _). discriminate.
Qed.

Lemma bind_Raise {A B : Type} (r : result A) (k : A -> result B) (e : pyerr) :
Py.bind r k = Raise e <-> r = Raise e \/ exists a, r = Ok a /\ k a = Raise e.
Proof.
destruct r as [a|e']; simpl; split.
- intros H. right. exists a. split; [reflexivity | exact H].
- intros [H | (a' & Ha & Hk)]; [discriminate | injection Ha as ->; exact Hk].
- intros H. left. congruence.
- intros [H | (a' & Ha & _)]; [congruence | discriminate].
Qed.

(** Split a hypothesis [let! x := r in k = Ok b] into its two steps. *)
Ltac bind_ok H :=
let a := fresh "a" in
let Ha := fresh "Hstep" in
apply bind_Ok in H; destruct H as (a & Ha & H).

(** ** Properties of the fetchers *)

Module FetcherFacts.
Import Fetcher.

Lemma coherent_initial : coherent initial.
Proof. split; simpl; [reflexivity | constructor]. Qed.

Lemma coherent_count_duplicate st : coherent st -> coherent (count_duplicate st).
Proof. intros H. exact H. Qed.

Lemma make_movie_id i names m mv : make_movie i names m = Ok mv -> m_id mv = i.
Proof.
  unfold make_movie. intros H.
  bind_ok H. bind_ok H. injection H as <-. reflexivity.
Qed.

Lemma make_movie_genres i names m mv :
  make_movie i names m = Ok mv -> m_genres mv = Val names.
Proof.
  unfold make_movie. intros H.
  bind_ok H. bind_ok H. injection H as <-. reflexivity.
Qed.

Lemma coherent_retain i mv st :
  coherent st -> i ∉ seen_ids st -> m_id mv = i ->
  coherent (append_movie mv (mark_seen i st)).
Proof.
  intros [Hs Hn] Hi Hid. unfold coherent. simpl.
  rewrite fmap_app. simpl. rewrite Hid. split.
  - rewrite list_to_set_app_L, <- Hs. simpl.
    rewrite (right_id_L ∅ (∪)). apply (comm_L (∪)).
  - apply NoDup_app. split; [exact Hn|]. split.
    + intros x Hx Hx'. apply list_elem_of_singleton in Hx'. subst x.
      apply Hi. rewrite Hs. apply elem_of_list_to_set. exact Hx.
    + apply NoDup_singleton.
Qed.

Lemma coherent_size st :
  coherent st -> size (seen_ids st) = length (processed_movies st).
Proof.
  intros [Hs Hn]. rewrite Hs, size_list_to_set by exact Hn.
  apply length_fmap.
Qed.

Lemma coherent_elem st i :
  coherent st -> i ∈ seen_ids st <-> i ∈ m_id <$> processed_movies st.
Proof. intros [Hs _]. rewrite Hs. apply elem_of_list_to_set. Qed.

Create HintDb fetch discriminated.
#[local] Hint Resolve coherent_initial coherent_count_duplicate coherent_retain : fetch.

(** *** What every loop preserves

    Both fetchers change the state in two ways only: counting a
    duplicate, and retaining a new movie under an unseen id.  A relation
    between states that is a preorder and contains these two steps holds
    across every loop of both fetchers. *)

Section Progress.
Variable R : State -> State -> Prop.
Hypothesis R_refl : forall st, R st st.
Hypothesis R_trans : forall st1 st2 st3, R st1 st2 -> R st2 st3 -> R st1 st3.
Hypothesis R_duplicate : forall st, R st (count_duplicate st).
Hypothesis R_retain : forall st i mv,
  i ∉ seen_ids st -> m_id mv = i -> R st (append_movie mv (mark_seen i st)).

Lemma popular_entry_progress gm st m st' :
  popular_entry gm st m = Ok st' -> R st st'.
Proof.
  unfold popular_entry. intros H. bind_ok H.
  destruct (decide (a ∈ seen_ids st)) as [Hin|Hin].
  - injection H as <-. apply R_duplicate.
  - bind_ok H. bind_ok H. injection H as <-.
    apply R_retain; [exact Hin | eapply make_movie_id; eassumption].
Qed.

Lemma popular_entries_progress gm ms : forall st st',
  popular_entries gm ms st = Ok st' -> R st st'.
Proof.
  induction ms as [|m rest IH]; simpl; intros st st' H.
  - injection H as <-. apply R_refl.
  - bind_ok H. eauto using popular_entry_progress.
Qed.

Lemma popular_page_progress fetch gm st page st' :
  popular_page fetch gm st page = Ok st' -> R st st'.
Proof.
  unfold popular_page. intros H.
  destruct (status_code (fetch page) =? 200).
  - eauto using popular_entries_progress.
  - injection H as <-. apply R_refl.
Qed.

Lemma popular_pages_progress fetch gm pages : forall st st',
  popular_pages fetch gm pages st = Ok st' -> R st st'.
Proof.
  induction pages as [|page rest IH]; simpl; intros st st' H.
  - injection H as <-. apply R_refl.
  - bind_ok H. eauto using popular_page_progress.
Qed.

Lemma representative_entries_progress gm target ms : forall st collected st' collected',
  representative_entries gm target ms st collected = Ok (st', collected') ->
  R st st'.
Proof.
  induction ms as [|m rest IH]; simpl; intros st c st' c' H.
  - injection H as <- _. apply R_refl.
  - destruct (target <=? c).
    + injection H as <- _. apply R_refl.
    + bind_ok H. destruct (decide (a ∈ seen_ids st)) as [Hin|Hin].
      * eapply R_trans; [apply R_duplicate | eapply IH; exact H].
      * bind_ok H. eapply R_trans; [|eapply IH; exact H].
        apply R_retain; [exact Hin | eapply make_movie_id; eassumption].
Qed.

Lemma representative_pages_progress fetch gm target gid pages : forall st collected st',
  representative_pages fetch gm target gid pages st collected = Ok st' ->
  R st st'.
Proof.
  induction pages as [|page rest IH]; intros st c st' H;
    cbn [representative_pages] in H.
  - injection H as <-. apply R_refl.
  - destruct (target <=? c); [injection H as <-; apply R_refl|].
    destruct (status_code (fetch gid page) =? 200); [|injection H as <-; apply R_refl].
    destruct (results_or_empty (fetch gid page)) as [|m ms] eqn:Hres;
      [injection H as <-; apply R_refl|].
    bind_ok H. destruct a as [st1 c1]. simpl in H.
    eapply R_trans; [|eapply IH; exact H].
    eauto using representative_entries_progress.
Qed.

Lemma representative_genres_progress fetch gm target pages genres : forall st st',
  representative_genres fetch gm target pages genres st = Ok st' -> R st st'.
Proof.
  induction genres as [|[gid name] rest IH]; simpl; intros st st' H.
  - injection H as <-. apply R_refl.
  - bind_ok H. eauto using representative_pages_progress.
Qed.

End Progress.

(** The two instances used below: [keeps_coherent] and [extends]. *)

Lemma popular_pages_coherent fetch gm pages st st' :
  popular_pages fetch gm pages st = Ok st' -> keeps_coherent st st'.
Proof.
  apply (popular_pages_progress keeps_coherent); unfold keeps_coherent;
    eauto with fetch.
Qed.

Lemma representative_genres_coherent fetch gm target pages genres st st' :
  representative_genres fetch gm target pages genres st = Ok st' ->
  keeps_coherent st st'.
Proof.
  apply (representative_genres_progress keeps_coherent); unfold keeps_coherent;
    eauto with fetch.
Qed.

Lemma extends_refl st : extends st st.
Proof. unfold extends. reflexivity. Qed.

Lemma extends_trans st1 st2 st3 : extends st1 st2 -> extends st2 st3 -> extends st1 st3.
Proof. unfold extends. intros H1 H2. etransitivity; eassumption. Qed.

Lemma extends_duplicate st : extends st (count_duplicate st).
Proof. unfold extends. simpl. reflexivity. Qed.

Lemma extends_retain st i mv :
  i ∉ seen_ids st -> m_id mv = i -> extends st (append_movie mv (mark_seen i st)).
Proof. intros _ _. unfold extends. simpl. apply prefix_app_r. reflexivity. Qed.

#[local] Hint Resolve extends_refl extends_trans extends_duplicate extends_retain : fetch.

Lemma popular_pages_extends fetch gm pages st st' :
  popular_pages fetch gm pages st = Ok st' -> extends st st'.
Proof. apply (popular_pages_progress extends); eauto with fetch. Qed.

Lemma remembers_refl st : remembers st st.
Proof. split; [reflexivity | lia]. Qed.

Lemma remembers_trans st1 st2 st3 :
  remembers st1 st2 -> remembers st2 st3 -> remembers st1 st3.
Proof. intros [Hs1 Hd1] [Hs2 Hd2]. split; [etransitivity; eassumption | lia]. Qed.

Lemma remembers_duplicate st : remembers st (count_duplicate st).
Proof. split; simpl; [reflexivity | lia]. Qed.

Lemma remembers_retain st i mv :
  i ∉ seen_ids st -> m_id mv = i -> remembers st (append_movie mv (mark_seen i st)).
Proof. intros _ _. split; simpl; [apply union_subseteq_r | lia]. Qed.

Lemma representative_genres_remembers fetch gm target pages genres st st' :
  representative_genres fetch gm target pages genres st = Ok st' -> remembers st st'.
Proof.
  apply (representative_genres_progress remembers);
    eauto using remembers_refl, remembers_trans, remembers_duplicate, remembers_retain.
Qed.

Lemma representative_genres_extends fetch gm target pages genres st st' :
  representative_genres fetch gm target pages genres st = Ok st' -> extends st st'.
Proof. apply (representative_genres_progress extends); eauto with fetch. Qed.

(** C6. After a run of [get_representative_movies] that returns, the
    size of [seen_ids] equals the length of the produced list: the ids
    in [seen_ids] are exactly the ids of the retained movies, and no id
    is retained twice. *)
Theorem seen_ids_size_matches_items fetch genre_map target_per_genre st :
  representative_run fetch genre_map target_per_genre = Ok st ->
  get_representative_movies fetch genre_map target_per_genre = Ok (processed_movies st)
  /\ size (seen_ids st) = length (processed_movies st)
  /\ (forall i, i ∈ seen_ids st <-> i ∈ m_id <$> processed_movies st)
  /\ NoDup (m_id <$> processed_movies st).
Proof.
  intros Hrun.
  assert (Hc : coherent st).
  { unfold representative_run in Hrun.
    eapply representative_genres_coherent; [exact Hrun | apply coherent_initial]. }
  split; [unfold get_representative_movies; rewrite Hrun; reflexivity|].
  split; [apply coherent_size, Hc|].
  split; [intros i; apply coherent_elem, Hc | apply Hc].
Qed.

Lemma seen_ids_size_matches_items_witness :
  get_representative_movies Samples.discover_heat Samples.genre_map 100
    = Ok (processed_movies Samples.heat_state)
  /\ size (seen_ids Samples.heat_state) = length (processed_movies Samples.heat_state)
  /\ (forall i, i ∈ seen_ids Samples.heat_state
                <-> i ∈ m_id <$> processed_movies Samples.heat_state)
  /\ NoDup (m_id <$> processed_movies Samples.heat_state).
Proof.
  apply (seen_ids_size_matches_items Samples.discover_heat Samples.genre_map 100).
  vm_compute. reflexivity.
Defined.

(** *** Duplicates across genres *)

Lemma pages_to_fetch_positive target : 1 <= target -> 0 < pages_to_fetch target.
Proof.
  intros H. unfold pages_to_fetch, ceil_div20.
  assert ((- target) / 20 < 0) by (apply Z.div_lt_upper_bound; lia).
  lia.
Qed.

Lemma range1_first n : 0 < n -> range1 n = 1 :: seqZ 2 (n - 1).
Proof.
  intros H. unfold range1. rewrite seqZ_cons by exact H.
  f_equal.
Qed.

(** A page without entries ends the genre's loop, whatever its status. *)
Lemma representative_pages_exhausted fetch gm target gid page rest st collected :
  results_or_empty (fetch gid page) = [] ->
  representative_pages fetch gm target gid (page :: rest) st collected = Ok st.
Proof.
  intros Hres. cbn [representative_pages].
  destruct (target <=? collected); [reflexivity|].
  destruct (status_code (fetch gid page) =? 200); [|reflexivity].
  rewrite Hres. reflexivity.
Qed.

Lemma representative_pages_nothing_later fetch gm target gid k st collected :
  (forall g p, 1 < p -> results_or_empty (fetch g p) = []) ->
  representative_pages fetch gm target gid (seqZ 2 k) st collected = Ok st.
Proof.
  intros Hlater. destruct (decide (0 < k)) as [Hk|Hk].
  - rewrite seqZ_cons by exact Hk.
    apply representative_pages_exhausted, Hlater. lia.
  - rewrite seqZ_nil by lia. reflexivity.
Qed.

Lemma representative_entries_duplicate gm target m i rest st collected :
  collected < target -> r_id m = Some i -> i ∈ seen_ids st ->
  representative_entries gm target (m :: rest) st collected
  = representative_entries gm target rest (count_duplicate st) (collected + 1).
Proof.
  intros Hc Hid Hin. cbn [representative_entries].
  destruct (target <=? collected) eqn:Hq; [apply Z.leb_le in Hq; lia|].
  unfold entry_id. rewrite Hid. simpl.
  destruct (decide (i ∈ seen_ids st)); [reflexivity | contradiction].
Qed.

Lemma representative_entries_new gm target m i mv rest st collected :
  collected < target -> r_id m = Some i -> i ∉ seen_ids st ->
  make_movie i (genre_names_of gm (get (r_genre_ids m))) m = Ok mv ->
  representative_entries gm target (m :: rest) st collected
  = representative_entries gm target rest (append_movie mv (mark_seen i st)) (collected + 1).
Proof.
  intros Hc Hid Hin Hmv. cbn [representative_entries].
  destruct (target <=? collected) eqn:Hq; [apply Z.leb_le in Hq; lia|].
  unfold entry_id. rewrite Hid. simpl.
  destruct (decide (i ∈ seen_ids st)); [contradiction|].
  rewrite Hmv. reflexivity.
Qed.

Section CrossGenreDuplicate.
Variable fetch : Z -> Z -> Response.
Variables a b : Z.
Variables name_a name_b : string.
Variable m : RawEntry.
Variable i : Z.
Variable mv : Movie.
Variable target : Z.

Abbreviation genres := [(a, name_a); (b, name_b)].
Abbreviation after_a := (append_movie mv (mark_seen i initial)).

Lemma unseen_at_start : i ∉ seen_ids initial.
Proof using Type. apply not_elem_of_empty. Qed.

Lemma seen_after_a : i ∈ seen_ids after_a.
Proof using Type. simpl. apply elem_of_union_l, elem_of_singleton. reflexivity. Qed.

Hypothesis Htarget : 1 <= target.
Hypothesis Hid : r_id m = Some i.
Hypothesis Hmv : make_movie i (genre_names_of genres (get (r_genre_ids m))) m = Ok mv.
Hypothesis Hpage_a : fetch a 1 = {| status_code := 200; results := Some [m] |}.
Hypothesis Hpage_b : fetch b 1 = {| status_code := 200; results := Some [m] |}.
Hypothesis Hlater : forall g p, 1 < p -> results_or_empty (fetch g p) = [].

Lemma first_genre_retains :
  representative_pages fetch genres target a (range1 (pages_to_fetch target)) initial 0
  = Ok after_a.
Proof using Htarget Hid Hmv Hpage_a Hlater.
  rewrite range1_first by (apply pages_to_fetch_positive, Htarget).
  cbn [representative_pages].
  destruct (target <=? 0) eqn:Hq; [apply Z.leb_le in Hq; lia|].
  rewrite Hpage_a. cbn [status_code results_or_empty results Z.eqb Pos.eqb].
  rewrite (representative_entries_new genres target m i mv [] initial 0)
    by (first [lia | apply unseen_at_start | assumption]).
  cbn [representative_entries Py.bind fst snd].
  apply representative_pages_nothing_later, Hlater.
Qed.

Lemma second_genre_counts :
  representative_pages fetch genres target b (range1 (pages_to_fetch target)) after_a 0
  = Ok (count_duplicate after_a).
Proof using Htarget Hid Hpage_b Hlater.
  rewrite range1_first by (apply pages_to_fetch_positive, Htarget).
  cbn [representative_pages].
  destruct (target <=? 0) eqn:Hq; [apply Z.leb_le in Hq; lia|].
  rewrite Hpage_b. cbn [status_code results_or_empty results Z.eqb Pos.eqb].
  rewrite (representative_entries_duplicate genres target m i [] after_a 0)
    by (first [lia | apply seen_after_a | assumption]).
  cbn [representative_entries Py.bind fst snd].
  apply representative_pages_nothing_later, Hlater.
Qed.

(** C1. In [get_representative_movies], a raw entry reached below the
    quota whose id is already in [seen_ids] adds one to
    [duplicates_count] and one to the genre's collected count, and
    appends nothing; a reached entry with an unseen id is appended and
    its id stays in [seen_ids] for every later genre.  Hence a movie
    listed under genres A and B, A first, is appended once (during A),
    counted as a duplicate once (during B), and counts toward B's
    quota. *)
Theorem duplicate_counts_toward_quota :
  (forall gm tgt e j rest st collected,
      collected < tgt -> r_id e = Some j -> j ∈ seen_ids st ->
      representative_entries gm tgt (e :: rest) st collected
      = representative_entries gm tgt rest (count_duplicate st) (collected + 1)
      /\ processed_movies (count_duplicate st) = processed_movies st
      /\ seen_ids (count_duplicate st) = seen_ids st
      /\ duplicates_count (count_duplicate st) = duplicates_count st + 1)
  /\ (forall gm tgt e j new rest st collected,
        collected < tgt -> r_id e = Some j -> j ∉ seen_ids st ->
        make_movie j (genre_names_of gm (get (r_genre_ids e))) e = Ok new ->
        representative_entries gm tgt (e :: rest) st collected
        = representative_entries gm tgt rest (append_movie new (mark_seen j st))
            (collected + 1)
        /\ processed_movies (append_movie new (mark_seen j st))
           = processed_movies st ++ [new]
        /\ j ∈ seen_ids (append_movie new (mark_seen j st))
        /\ duplicates_count (append_movie new (mark_seen j st)) = duplicates_count st)
  /\ (forall other gm tgt pages later st st',
        representative_genres other gm tgt pages later st = Ok st' ->
        seen_ids st ⊆ seen_ids st')
  /\ representative_pages fetch genres target a (range1 (pages_to_fetch target)) initial 0
     = Ok after_a
  /\ processed_movies after_a = [mv]
  /\ duplicates_count after_a = 0
  /\ representative_entries genres target [m] after_a 0 = Ok (count_duplicate after_a, 1)
  /\ representative_pages fetch genres target b (range1 (pages_to_fetch target)) after_a 0
     = Ok (count_duplicate after_a)
  /\ representative_run fetch genres target = Ok (count_duplicate after_a)
  /\ get_representative_movies fetch genres target = Ok [mv]
  /\ duplicates_count (count_duplicate after_a) = 1.
Proof using All.
  split.
  { intros gm tgt e j rest st collected Hc Hj Hin.
    split; [eapply representative_entries_duplicate; eassumption|].
    repeat split. }
  split.
  { intros gm tgt e j new rest st collected Hc Hj Hout Hnew.
    split; [eapply representative_entries_new; eassumption|].
    split; [reflexivity|]. split; [|reflexivity].
    simpl. apply elem_of_union_l, elem_of_singleton. reflexivity. }
  split.
  { intros other gm tgt pages later st st' Hrun.
    apply (representative_genres_remembers _ _ _ _ _ _ _ Hrun). }
  split; [apply first_genre_retains|].
  split; [reflexivity|]. split; [reflexivity|].
  split.
  { rewrite (representative_entries_duplicate genres target m i [] after_a 0)
      by (first [lia | apply seen_after_a | assumption]).
    reflexivity. }
  split; [apply second_genre_counts|].
  assert (Hrun : representative_run fetch genres target = Ok (count_duplicate after_a)).
  { unfold representative_run. cbn [representative_genres].
    rewrite first_genre_retains. cbn [Py.bind].
    rewrite second_genre_counts. reflexivity. }
  split; [exact Hrun|].
  split; [|reflexivity].
  unfold get_representative_movies. rewrite Hrun. reflexivity.
Qed.

End CrossGenreDuplicate.

Lemma duplicate_counts_toward_quota_witness :
  representative_run Samples.discover_heat Samples.genre_map 100
    = Ok (count_duplicate (append_movie Samples.heat_movie (mark_seen 949 initial)))
  /\ get_representative_movies Samples.discover_heat Samples.genre_map 100
     = Ok [Samples.heat_movie].
Proof.
  pose proof (duplicate_counts_toward_quota Samples.discover_heat 28 35 "Action" "Comedy"
                Samples.heat 949 Samples.heat_movie 100) as H.
  assert (Hlater : forall g p, 1 < p -> results_or_empty (Samples.discover_heat g p) = []).
  { intros g p Hp. unfold Samples.discover_heat.
    destruct (p =? 1) eqn:E; [apply Z.eqb_eq in E; lia | reflexivity]. }
  specialize (H ltac:(lia) eq_refl eq_refl eq_refl eq_refl Hlater).
  split; apply H.
Defined.

(** *** Failed page requests *)

(** C8. A page request answered with a status other than 200 raises
    nothing.  In [get_popular_movies] the page leaves the state as it
    was and the loop goes on with the next page.  In
    [get_representative_movies] it ends the page loop of the current
    genre with the state as it was, and the genre loop goes on with the
    next genre.  What had been retained before is a prefix of what is
    returned. *)
Theorem failed_page_keeps_items
    (popular : Z -> Response) (discover : Z -> Z -> Response) (gm : GenreMap)
    (target gid page collected : Z) (name : string)
    (rest : list Z) (later : list (Z * string)) (st : State) :
  (status_code (popular page) <> 200 ->
     popular_page popular gm st page = Ok st
     /\ popular_pages popular gm (page :: rest) st = popular_pages popular gm rest st
     /\ forall st', popular_pages popular gm (page :: rest) st = Ok st' ->
          processed_movies st `prefix_of` processed_movies st')
  /\ (status_code (discover gid page) <> 200 ->
       representative_pages discover gm target gid (page :: rest) st collected = Ok st
       /\ representative_genres discover gm target (page :: rest) ((gid, name) :: later) st
          = representative_genres discover gm target (page :: rest) later st
       /\ forall st',
            representative_genres discover gm target (page :: rest) ((gid, name) :: later) st
              = Ok st' ->
            processed_movies st `prefix_of` processed_movies st').
Proof.
  split; intros Hstatus; apply Z.eqb_neq in Hstatus.
  - assert (Hpage : popular_page popular gm st page = Ok st).
    { unfold popular_page. rewrite Hstatus. reflexivity. }
    split; [exact Hpage|]. split.
    + cbn [popular_pages]. rewrite Hpage. reflexivity.
    + intros st' H. exact (popular_pages_extends _ _ _ _ _ H).
  - assert (Hpages : forall c,
      representative_pages discover gm target gid (page :: rest) st c = Ok st).
    { intros c. cbn [representative_pages].
      destruct (target <=? c); [reflexivity|].
      rewrite Hstatus. reflexivity. }
    split; [apply Hpages|]. split.
    + cbn [representative_genres]. rewrite Hpages. reflexivity.
    + intros st' H. exact (representative_genres_extends _ _ _ _ _ _ _ H).
Qed.

Lemma failed_page_keeps_items_witness :
  popular_pages Samples.popular_gap Samples.genre_map [2; 3] initial
    = popular_pages Samples.popular_gap Samples.genre_map [3] initial
  /\ representative_genres Samples.discover_gap Samples.genre_map 30 [1; 2]
       Samples.genre_map initial
     = representative_genres Samples.discover_gap Samples.genre_map 30 [1; 2]
         [(35, "Comedy")] initial.
Proof.
  pose proof (failed_page_keeps_items Samples.popular_gap Samples.discover_gap
                Samples.genre_map 30 28 2 0 "Action" [3] [(35, "Comedy")] initial)
    as [Hpopular _].
  pose proof (failed_page_keeps_items Samples.popular_gap Samples.discover_gap
                Samples.genre_map 30 28 1 0 "Action" [2] [(35, "Comedy")] initial)
    as [_ Hdiscover].
  split.
  - apply Hpopular. vm_compute. discriminate.
  - apply Hdiscover. vm_compute. discriminate.
Defined.

(** *** The [genre_ids] key *)

Lemma make_movie_no_genre_error i names m :
  make_movie i names m <> Raise (KeyError "genre_ids").
Proof.
  unfold make_movie.
  destruct (r_title m), (r_vote_average m); simpl; discriminate.
Qed.

Lemma popular_entry_no_genre_error gm st m :
  r_genre_ids m <> Missing ->
  popular_entry gm st m <> Raise (KeyError "genre_ids").
Proof.
  intros Hpresent. unfold popular_entry, entry_id.
  destruct (r_id m) as [i|]; simpl; [|discriminate].
  destruct (decide (i ∈ seen_ids st)); [discriminate|].
  destruct (r_genre_ids m) as [| |ids]; [contradiction| |];
    cbn [subscript Py.bind]; intros H;
    apply bind_Raise in H as [H | (mv & _ & H)];
    first [discriminate | revert H; apply make_movie_no_genre_error].
Qed.

Lemma popular_entries_no_genre_error gm ms : forall st,
  (forall m, m ∈ ms -> r_genre_ids m <> Missing) ->
  popular_entries gm ms st <> Raise (KeyError "genre_ids").
Proof.
  induction ms as [|m rest IH]; simpl; intros st Hall; [discriminate|].
  intros H. apply bind_Raise in H as [H | (st' & _ & H)].
  - revert H. apply popular_entry_no_genre_error, Hall. left.
  - revert H. apply IH. intros m' Hm'. apply Hall. right. exact Hm'.
Qed.

Lemma popular_pages_no_genre_error fetch gm pages : forall st,
  (forall page m, m ∈ results_or_empty (fetch page) -> r_genre_ids m <> Missing) ->
  popular_pages fetch gm pages st <> Raise (KeyError "genre_ids").
Proof.
  induction pages as [|page rest IH]; simpl; intros st Hall; [discriminate|].
  intros H. apply bind_Raise in H as [H | (st' & _ & H)].
  - revert H. unfold popular_page.
    destruct (status_code (fetch page) =? 200); [|discriminate].
    apply popular_entries_no_genre_error. intros m. apply Hall.
  - revert H. apply IH, Hall.
Qed.

(** C10. An absent [genre_ids] key is handled differently by the two
    fetchers.  [get_representative_movies] reads it with a default: a new
    entry without the key is retained with genres ["Other"].
    [get_popular_movies] subscripts it: a new entry without the key
    raises [KeyError].  When every raw entry carries the key, that
    [KeyError] cannot occur. *)
Theorem genre_ids_guarded_only_in_representative
    (popular : Z -> Response) (gm : GenreMap) (target pages collected i : Z)
    (m : RawEntry) (rest : list RawEntry) (st : State) :
  (r_genre_ids m = Missing -> r_id m = Some i -> i ∉ seen_ids st ->
     r_title m <> Missing -> r_vote_average m <> Missing -> collected < target ->
     exists mv,
       make_movie i ["Other"] m = Ok mv
       /\ m_genres mv = Val ["Other"]
       /\ representative_entries gm target (m :: rest) st collected
          = representative_entries gm target rest
              (append_movie mv (mark_seen i st)) (collected + 1))
  /\ (r_genre_ids m = Missing -> r_id m = Some i -> i ∉ seen_ids st ->
       popular_entry gm st m = Raise (KeyError "genre_ids")
       /\ popular_entries gm (m :: rest) st = Raise (KeyError "genre_ids"))
  /\ ((forall page e, e ∈ results_or_empty (popular page) -> r_genre_ids e <> Missing) ->
       popular_run popular gm pages <> Raise (KeyError "genre_ids")
       /\ get_popular_movies popular gm pages <> Raise (KeyError "genre_ids")).
Proof.
  split; [|split].
  - intros Hg Hid Hnew Htitle Hvote Hquota.
    assert (Hmv : exists mv, make_movie i ["Other"] m = Ok mv).
    { unfold make_movie.
      destruct (r_title m); [contradiction|..];
        (destruct (r_vote_average m); [contradiction|..]); simpl; eauto. }
    destruct Hmv as [mv Hmv]. exists mv.
    split; [exact Hmv|]. split; [eapply make_movie_genres; exact Hmv|].
    apply representative_entries_new; try assumption.
    rewrite Hg. exact Hmv.
  - intros Hg Hid Hnew.
    assert (Hentry : popular_entry gm st m = Raise (KeyError "genre_ids")).
    { unfold popular_entry, entry_id. rewrite Hid. simpl.
      destruct (decide (i ∈ seen_ids st)); [contradiction|].
      rewrite Hg. reflexivity. }
    split; [exact Hentry|]. simpl. rewrite Hentry. reflexivity.
  - intros Hall.
    assert (Hrun : popular_run popular gm pages <> Raise (KeyError "genre_ids")).
    { apply popular_pages_no_genre_error, Hall. }
    split; [exact Hrun|].
    unfold get_popular_movies. intros H.
    apply bind_Raise in H as [H | (st' & _ & H)]; [contradiction | discriminate].
Qed.

Lemma genre_ids_guarded_only_in_representative_witness :
  (exists mv,
      make_movie 7 ["Other"] Samples.untagged = Ok mv
      /\ m_genres mv = Val ["Other"]
      /\ representative_entries Samples.genre_map 5 [Samples.untagged] initial 0
         = representative_entries Samples.genre_map 5 []
             (append_movie mv (mark_seen 7 initial)) (0 + 1))
  /\ popular_entries Samples.genre_map [Samples.untagged] initial
     = Raise (KeyError "genre_ids")
  /\ get_popular_movies Samples.popular_twice Samples.genre_map 2
     <> Raise (KeyError "genre_ids").
Proof.
  split; [|split].
  - apply (genre_ids_guarded_only_in_representative Samples.popular_twice
             Samples.genre_map 5 2 0 7 Samples.untagged [] initial);
      first [reflexivity | discriminate | lia | apply not_elem_of_empty].
  - apply (genre_ids_guarded_only_in_representative Samples.popular_twice
             Samples.genre_map 5 2 0 7 Samples.untagged [] initial);
      first [reflexivity | apply not_elem_of_empty].
  - apply (genre_ids_guarded_only_in_representative Samples.popular_twice
             Samples.genre_map 5 2 0 7 Samples.untagged [] initial).
    intros page e He. unfold Samples.popular_twice in He. simpl in He.
    apply elem_of_cons in He as [-> | He]; [discriminate|].
    apply list_elem_of_singleton in He as ->. discriminate.
Defined.

(** *** What the fetchers return *)

(** C2, as amended.  Both fetchers return the list [processed_movies]
    alone: the retained movies in order, no id twice.  The duplicate
    count stays a local variable of the run. *)
Theorem fetchers_return_deduplicated_items
    (popular : Z -> Response) (discover : Z -> Z -> Response) (gm : GenreMap)
    (pages target : Z) (items : list Movie) :
  (get_popular_movies popular gm pages = Ok items ->
     NoDup (m_id <$> items)
     /\ exists st, popular_run popular gm pages = Ok st /\ items = processed_movies st)
  /\ (get_representative_movies discover gm target = Ok items ->
       NoDup (m_id <$> items)
       /\ exists st, representative_run discover gm target = Ok st
                     /\ items = processed_movies st).
Proof.
  split; intros H.
  - unfold get_popular_movies in H. bind_ok H. injection H as <-.
    split; [|eauto].
    eapply popular_pages_coherent; [exact Hstep | apply coherent_initial].
  - unfold get_representative_movies in H. bind_ok H. injection H as <-.
    split; [|eauto].
    eapply representative_genres_coherent; [exact Hstep | apply coherent_initial].
Qed.

Lemma fetchers_return_deduplicated_items_witness :
  NoDup (m_id <$> [Samples.heat_movie]).
Proof.
  pose proof (fetchers_return_deduplicated_items Samples.popular_twice
                Samples.discover_heat Samples.genre_map 1 100 [Samples.heat_movie])
    as [Hpopular Hdiscover].
  pose proof (Hdiscover eq_refl) as [_ _].
  exact (proj1 (Hpopular eq_refl)).
Defined.

(** C2, as stated, fails: two runs return the same list and differ in
    their duplicate count, so the count is no part of the value
    returned, for either fetcher. *)
Lemma duplicate_count_not_returned :
  get_popular_movies Samples.popular_twice Samples.genre_map 1 = Ok [Samples.heat_movie]
  /\ get_popular_movies Samples.popular_once Samples.genre_map 1 = Ok [Samples.heat_movie]
  /\ (exists st, popular_run Samples.popular_twice Samples.genre_map 1 = Ok st
                 /\ duplicates_count st = 1)
  /\ (exists st, popular_run Samples.popular_once Samples.genre_map 1 = Ok st
                 /\ duplicates_count st = 0)
  /\ ~ Reference.returns_duplicate_count
        (fun fetch => popular_run fetch Samples.genre_map 1)
        (fun fetch => get_popular_movies fetch Samples.genre_map 1)
  /\ ~ Reference.returns_duplicate_count
        (fun fetch => representative_run fetch Samples.genre_map 100)
        (fun fetch => get_representative_movies fetch Samples.genre_map 100).
Proof.
  split; [reflexivity|]. split; [reflexivity|].
  split; [eexists; split; [vm_compute; reflexivity | reflexivity]|].
  split; [eexists; split; [vm_compute; reflexivity | reflexivity]|].
  split.
  - intros [count_of Hcount].
    assert (H1 : count_of [Samples.heat_movie] = 1).
    { erewrite (Hcount Samples.popular_twice); [| vm_compute; reflexivity | reflexivity].
      reflexivity. }
    assert (H0 : count_of [Samples.heat_movie] = 0).
    { erewrite (Hcount Samples.popular_once); [| vm_compute; reflexivity | reflexivity].
      reflexivity. }
    congruence.
  - intros [count_of Hcount].
    assert (H1 : count_of [Samples.heat_movie] = 1).
    { erewrite (Hcount Samples.discover_heat); [| vm_compute; reflexivity | reflexivity].
      reflexivity. }
    assert (H0 : count_of [Samples.heat_movie] = 0).
    { erewrite (Hcount Samples.discover_action_only);
        [| vm_compute; reflexivity | reflexivity].
      reflexivity. }
    congruence.
Qed.

End FetcherFacts.

(** ** Properties of the aggregation pass *)

Module AggregatorFacts.
Import Aggregator Reference.

(** *** The filter *)

Lemma has_rating_qualifying m keep : has_rating m = Ok keep -> keep = qualifying m.
Proof.
  unfold has_rating, qualifying, excluded, nonpositiveZ, nonpositiveQ.
  destruct (m_vote_count m) as [| |votes]; simpl; [|discriminate|].
  - intros H. injection H as <-. reflexivity.
  - destruct (0 <? votes) eqn:Hv.
    + assert (Hle : (votes <=? 0) = false) by lia. rewrite Hle. simpl.
      destruct (m_rating m) as [| |q]; simpl; [|discriminate|];
        intros H; injection H as <-; reflexivity.
    + assert (Hle : (votes <=? 0) = true) by lia. rewrite Hle. simpl.
      intros H. injection H as <-. reflexivity.
Qed.

Lemma has_rating_fields m :
  has_rating m = Ok true ->
  exists votes q, m_vote_count m = Val votes /\ 0 < votes
                  /\ m_rating m = Val q /\ (0 < q)%Q.
Proof.
  unfold has_rating.
  destruct (m_vote_count m) as [| |votes]; simpl; try discriminate.
  destruct (0 <? votes) eqn:Hv; [|discriminate].
  destruct (m_rating m) as [| |q]; simpl; try discriminate.
  intros H. injection H as Hq. exists votes, q.
  split; [reflexivity|]. split; [lia|]. split; [reflexivity|].
  apply negb_true_iff in Hq. apply Qnot_le_lt. intros Hle.
  apply Qle_bool_iff in Hle. congruence.
Qed.

(** *** The dict of groups *)

Lemma stats_of_app l1 l2 stats :
  stats_of (l1 ++ l2) stats = stats_of l2 (stats_of l1 stats).
Proof. unfold stats_of. apply fold_left_app. Qed.

Lemma stats_of_one_movie genres m : forall stats,
  stats_of (map (fun genre => (genre, m)) genres) stats = append_to_genres stats genres m.
Proof.
  induction genres as [|g rest IH]; intros stats; [reflexivity|].
  simpl. apply IH.
Qed.

Lemma memberships_cons m ms :
  memberships (m :: ms)
  = if qualifying m
    then map (fun genre => (genre, m)) (genre_list m) ++ memberships ms
    else memberships ms.
Proof. unfold memberships. simpl. destruct (qualifying m); reflexivity. Qed.

Lemma genres_of_genre_list m genres : genres_of m = Ok genres -> genre_list m = genres.
Proof.
  unfold genres_of, genre_list.
  destruct (m_genres m); simpl; try discriminate. congruence.
Qed.

(** The first loop computes the dict of the memberships and puts the
    other movies aside. *)
Lemma group_movies_spec ms : forall stats skipped r,
  group_movies ms stats skipped = Ok r ->
  r = (stats_of (memberships ms) stats, skipped ++ List.filter excluded ms).
Proof.
  induction ms as [|m rest IH]; simpl; intros stats skipped r H.
  - injection H as <-. rewrite app_nil_r. reflexivity.
  - bind_ok H. apply has_rating_qualifying in Hstep. subst a.
    rewrite memberships_cons. unfold qualifying in *.
    destruct (excluded m); simpl in *.
    + rewrite (IH _ _ _ H), <- app_assoc. reflexivity.
    + bind_ok H. apply genres_of_genre_list in Hstep. rewrite Hstep.
      rewrite stats_of_app, stats_of_one_movie. apply IH, H.
Qed.

(** Without the movies put aside, the first loop builds the same dict and
    puts nothing aside. *)
Lemma group_movies_qualifying ms : forall stats skipped r kept,
  group_movies ms stats skipped = Ok r ->
  group_movies (List.filter qualifying ms) stats kept = Ok (fst r, kept).
Proof.
  induction ms as [|m rest IH]; simpl; intros stats skipped r kept H.
  - injection H as <-. reflexivity.
  - bind_ok H. pose proof (has_rating_qualifying _ _ Hstep) as Hq. subst a.
    destruct (qualifying m); simpl.
    + rewrite Hstep. simpl. bind_ok H. rewrite Hstep0. simpl.
      eapply IH, H.
    + eapply IH, H.
Qed.

(** Every movie the first loop files under a genre passed the test. *)
Lemma group_movies_has_rating ms : forall stats skipped r,
  group_movies ms stats skipped = Ok r ->
  forall m, m ∈ ms -> qualifying m = true -> has_rating m = Ok true.
Proof.
  induction ms as [|m rest IH]; simpl; intros stats skipped r H m' Hin Hq.
  - apply elem_of_nil in Hin. contradiction.
  - bind_ok H. pose proof (has_rating_qualifying _ _ Hstep) as Ha. subst a.
    apply elem_of_cons in Hin as [-> | Hin].
    + rewrite Hq in Hstep. exact Hstep.
    + destruct (qualifying m).
      * bind_ok H. eapply IH; eassumption.
      * eapply IH; eassumption.
Qed.

(** *** Keys and groups of the dict *)

Lemma stats_append_keys stats genre m :
  map fst (stats_append stats genre m) = note_name (map fst stats) genre.
Proof.
  unfold note_name. induction stats as [|[k l] rest IH]; simpl.
  - destruct (decide (genre ∈ [])) as [Hin|_]; [|reflexivity].
    apply elem_of_nil in Hin. contradiction.
  - destruct (decide (k = genre)) as [->|Hne]; simpl.
    + destruct (decide (genre ∈ genre :: map fst rest)) as [_|Hout]; [reflexivity|].
      exfalso. apply Hout. left.
    + rewrite IH.
      destruct (decide (genre ∈ map fst rest)) as [Hin|Hout];
        destruct (decide (genre ∈ k :: map fst rest)) as [Hin'|Hout'];
        try reflexivity.
      * exfalso. apply Hout'. right. exact Hin.
      * exfalso. apply elem_of_cons in Hin' as [->|Hin']; [apply Hne|apply Hout]; auto.
Qed.

Lemma stats_of_keys pairs : forall stats,
  map fst (stats_of pairs stats) = fold_left note_name (map fst pairs) (map fst stats).
Proof.
  induction pairs as [|[g m] rest IH]; intros stats; [reflexivity|].
  simpl. rewrite <- (stats_append_keys stats g m). apply IH.
Qed.

Lemma note_name_elem names name x :
  x ∈ note_name names name <-> x ∈ names \/ x = name.
Proof.
  unfold note_name. destruct (decide (name ∈ names)) as [Hin|Hout].
  - split; [auto|]. intros [H| ->]; assumption.
  - rewrite elem_of_app, list_elem_of_singleton. reflexivity.
Qed.

Lemma note_name_NoDup names name : NoDup names -> NoDup (note_name names name).
Proof.
  intros Hn. unfold note_name. destruct (decide (name ∈ names)) as [Hin|Hout]; [exact Hn|].
  apply NoDup_app. split; [exact Hn|]. split; [|apply NoDup_singleton].
  intros x Hx Hx'. apply list_elem_of_singleton in Hx'. subst x. contradiction.
Qed.

Lemma fold_note_name_elem l : forall names x,
  x ∈ fold_left note_name l names <-> x ∈ names \/ x ∈ l.
Proof.
  induction l as [|name rest IH]; simpl; intros names x.
  - rewrite elem_of_nil. tauto.
  - rewrite IH, note_name_elem, elem_of_cons. tauto.
Qed.

Lemma fold_note_name_NoDup l : forall names,
  NoDup names -> NoDup (fold_left note_name l names).
Proof.
  induction l as [|name rest IH]; simpl; intros names Hn; [exact Hn|].
  apply IH, note_name_NoDup, Hn.
Qed.

Lemma first_occurrences_elem l x : x ∈ first_occurrences l <-> x ∈ l.
Proof.
  unfold first_occurrences. rewrite fold_note_name_elem, elem_of_nil. tauto.
Qed.

Lemma first_occurrences_NoDup l : NoDup (first_occurrences l).
Proof. apply fold_note_name_NoDup. constructor. Qed.

Lemma group_in_append stats genre m g :
  group_in (stats_append stats genre m) g
  = if decide (genre = g) then group_in stats g ++ [m] else group_in stats g.
Proof.
  induction stats as [|[k l] rest IH]; simpl.
  - destruct (decide (genre = g)); reflexivity.
  - destruct (decide (k = genre)) as [->|Hne]; simpl.
    + destruct (decide (genre = g)); reflexivity.
    + destruct (decide (k = g)) as [->|Hne'].
      * destruct (decide (genre = g)) as [->|_]; [contradiction | reflexivity].
      * exact IH.
Qed.

Lemma group_in_stats_of pairs g : forall stats,
  group_in (stats_of pairs stats) g = group_in stats g ++ group_of g pairs.
Proof.
  unfold group_of.
  induction pairs as [|[genre m] rest IH]; intros stats; simpl.
  - rewrite app_nil_r. reflexivity.
  - unfold stats_of in *. simpl. rewrite IH, group_in_append.
    destruct (decide (genre = g)) as [->|Hne].
    + rewrite bool_decide_eq_true_2 by reflexivity. simpl.
      rewrite <- app_assoc. reflexivity.
    + rewrite bool_decide_eq_false_2 by exact Hne. reflexivity.
Qed.

Lemma group_in_elem stats g l :
  NoDup (map fst stats) -> (g, l) ∈ stats -> group_in stats g = l.
Proof.
  induction stats as [|[k l'] rest IH]; simpl; intros Hn Hin.
  - apply elem_of_nil in Hin. contradiction.
  - apply NoDup_cons in Hn as [Hk Hn].
    apply elem_of_cons in Hin as [Heq | Hin].
    + injection Heq as -> ->. destruct (decide (k = k)); [reflexivity | contradiction].
    + destruct (decide (k = g)) as [->|Hne]; [|apply IH; assumption].
      exfalso. apply Hk. apply list_elem_of_fmap. exists (g, l). split; [reflexivity | exact Hin].
Qed.

Lemma stats_append_nonempty stats genre m :
  Forall (fun p => snd p <> []) stats ->
  Forall (fun p => snd p <> []) (stats_append stats genre m).
Proof.
  induction 1 as [|[k l] rest Hl Hrest IH]; simpl.
  - constructor; [discriminate | constructor].
  - destruct (decide (k = genre)); constructor; try assumption.
    simpl. intros H. apply app_eq_nil in H as [_ H]. discriminate.
Qed.

Lemma stats_of_nonempty pairs : forall stats,
  Forall (fun p => snd p <> []) stats ->
  Forall (fun p => snd p <> []) (stats_of pairs stats).
Proof.
  induction pairs as [|[g m] rest IH]; intros stats H; [exact H|].
  apply IH, stats_append_nonempty, H.
Qed.

(** *** The sort *)

Lemma insert_desc_perm x l : insert_desc x l ≡ₚ x :: l.
Proof.
  induction l as [|y rest IH]; simpl; [reflexivity|].
  destruct (Qle_bool (fst y) (fst x)); [reflexivity|].
  rewrite IH. apply Permutation_swap.
Qed.

Lemma sorted_desc_perm l : sorted_desc l ≡ₚ l.
Proof.
  induction l as [|x rest IH]; simpl; [reflexivity|].
  rewrite insert_desc_perm, IH. reflexivity.
Qed.

Lemma insert_desc_HdRel y x l :
  HdRel key_ge y l -> key_ge y x -> HdRel key_ge y (insert_desc x l).
Proof.
  intros Hl Hx. destruct l as [|z rest]; simpl.
  - constructor. exact Hx.
  - destruct (Qle_bool (fst z) (fst x)); constructor.
    + exact Hx.
    + inversion Hl; assumption.
Qed.

Lemma insert_desc_sorted x l : Sorted key_ge l -> Sorted key_ge (insert_desc x l).
Proof.
  induction 1 as [|y rest Hrest IH Hhd]; simpl.
  - repeat constructor.
  - destruct (Qle_bool (fst y) (fst x)) eqn:Hle.
    + constructor; [constructor; assumption|].
      constructor. apply Qle_bool_iff, Hle.
    + constructor; [exact IH|].
      apply insert_desc_HdRel; [exact Hhd|].
      unfold key_ge. apply Qlt_le_weak, Qnot_le_lt. intros H.
      apply Qle_bool_iff in H. congruence.
Qed.

Lemma sorted_desc_sorted l : Sorted key_ge (sorted_desc l).
Proof.
  induction l as [|x rest IH]; simpl; [constructor|].
  apply insert_desc_sorted, IH.
Qed.

(** Stability: the elements of one key keep their places among
    themselves. *)
Lemma insert_desc_stable q x l :
  List.filter (has_key q) (insert_desc x l) = List.filter (has_key q) (x :: l).
Proof.
  induction l as [|y rest IH]; [reflexivity|].
  cbn [insert_desc].
  destruct (Qle_bool (fst y) (fst x)) eqn:Hle; [reflexivity|].
  cbn [List.filter] in *. rewrite IH.
  destruct (has_key q x) eqn:Hx; [|reflexivity].
  destruct (has_key q y) eqn:Hy; [|reflexivity].
  exfalso. unfold has_key in Hx, Hy.
  apply Qeq_bool_iff in Hx, Hy.
  assert (Hxy : Qle_bool (fst y) (fst x) = true).
  { apply Qle_bool_iff. rewrite Hx, Hy. apply Qle_refl. }
  congruence.
Qed.

Lemma sorted_desc_stable q l :
  List.filter (has_key q) (sorted_desc l) = List.filter (has_key q) l.
Proof.
  induction l as [|x rest IH]; [reflexivity|].
  cbn [sorted_desc]. rewrite insert_desc_stable.
  cbn [List.filter]. rewrite IH. reflexivity.
Qed.

(** *** From the decorated list back to the movies *)

Lemma decorate_snd l : map snd (decorate l) = l.
Proof.
  unfold decorate. induction l as [|m rest IH]; simpl; [reflexivity|].
  rewrite IH. reflexivity.
Qed.

Lemma decorate_consistent l : Forall consistent (decorate l).
Proof.
  unfold decorate. induction l as [|m rest IH]; simpl; constructor.
  - reflexivity.
  - exact IH.
Qed.

Lemma sorted_desc_consistent l : Forall consistent (sorted_desc (decorate l)).
Proof. rewrite sorted_desc_perm. apply decorate_consistent. Qed.

Lemma consistent_sorted l :
  Forall consistent l -> Sorted key_ge l -> Sorted rating_ge (map snd l).
Proof.
  intros Hc Hs. induction Hs as [|x rest Hrest IH Hhd]; simpl; [constructor|].
  apply Forall_cons in Hc as [Hx Hc].
  constructor; [apply IH, Hc|].
  destruct Hhd as [|y rest' Hxy]; simpl; constructor.
  apply Forall_cons in Hc as [Hy _].
  unfold rating_ge, key_ge, consistent in *. rewrite <- Hx, <- Hy. exact Hxy.
Qed.

Lemma consistent_rated q l :
  Forall consistent l -> rated q (map snd l) = map snd (List.filter (has_key q) l).
Proof.
  unfold rated, has_key. induction 1 as [|x rest Hx Hrest IH]; simpl; [reflexivity|].
  rewrite IH, <- Hx. destruct (Qeq_bool (fst x) q); reflexivity.
Qed.

Lemma ranking_perm l : ranking l ≡ₚ l.
Proof.
  unfold ranking. rewrite sorted_desc_perm. rewrite decorate_snd. reflexivity.
Qed.

Lemma ranking_sorted l : Sorted rating_ge (ranking l).
Proof.
  apply consistent_sorted; [apply sorted_desc_consistent | apply sorted_desc_sorted].
Qed.

Lemma ranking_stable q l : rated q (ranking l) = rated q l.
Proof.
  unfold ranking.
  rewrite consistent_rated by apply sorted_desc_consistent.
  rewrite sorted_desc_stable.
  rewrite <- consistent_rated by apply decorate_consistent.
  rewrite decorate_snd. reflexivity.
Qed.

Lemma ranking_length l : length (ranking l) = length l.
Proof. apply Permutation_length, ranking_perm. Qed.

(** *** Prefixes *)

Lemma slice_to_take {A : Type} n (l : list A) : exists k, slice_to n l = take k l.
Proof. unfold slice_to. destruct (0 <=? n); eauto. Qed.

Lemma slice_to_length {A : Type} n (l : list A) :
  0 <= n -> Z.of_nat (length (slice_to n l)) = Z.min n (Z.of_nat (length l)).
Proof.
  intros Hn. unfold slice_to.
  destruct (0 <=? n) eqn:E; [|apply Z.leb_gt in E; lia].
  rewrite length_take. lia.
Qed.

Lemma take_sorted {A : Type} (R : A -> A -> Prop) k : forall l,
  Sorted R l -> Sorted R (take k l).
Proof.
  induction k as [|k IH]; intros l Hs; [constructor|].
  destruct Hs as [|x rest Hrest Hhd]; simpl; [constructor|].
  constructor; [apply IH, Hrest|].
  destruct Hhd as [|y rest' Hxy]; destruct k; simpl; constructor. exact Hxy.
Qed.

Lemma take_rated q k l : rated q (take k l) `prefix_of` rated q l.
Proof.
  unfold rated. exists (List.filter (fun m => Qeq_bool (rating_value m) q) (drop k l)).
  rewrite <- List.filter_app, take_drop. reflexivity.
Qed.

(** *** Membership in groups *)

Lemma memberships_elem ms g m :
  (g, m) ∈ memberships ms <-> m ∈ ms /\ qualifying m = true /\ g ∈ genre_list m.
Proof.
  unfold memberships. rewrite list_elem_of_In, in_flat_map. split.
  - intros (m' & Hm' & Hpair). apply filter_In in Hm' as [Hin Hq].
    apply in_map_iff in Hpair as (g' & Heq & Hg'). injection Heq as -> ->.
    rewrite !list_elem_of_In. auto.
  - intros (Hin & Hq & Hg). exists m. rewrite filter_In, <- !list_elem_of_In.
    split; [auto|]. apply list_elem_of_fmap. exists g. auto.
Qed.

Lemma group_of_elem g pairs m : m ∈ group_of g pairs -> (g, m) ∈ pairs.
Proof.
  unfold group_of. intros H. apply list_elem_of_fmap in H as ([g' m'] & -> & H).
  apply list_elem_of_In, filter_In in H as [Hin Hg]. simpl in *.
  apply bool_decide_eq_true in Hg. subst g'. apply list_elem_of_In, Hin.
Qed.

Lemma group_of_app g l1 l2 : group_of g (l1 ++ l2) = group_of g l1 ++ group_of g l2.
Proof. unfold group_of. rewrite List.filter_app, map_app. reflexivity. Qed.

Lemma group_of_one_movie g m names :
  group_of g (map (fun genre => (genre, m)) names) = replicate (occurrences g names) m.
Proof.
  unfold group_of, occurrences. induction names as [|name rest IH]; simpl; [reflexivity|].
  destruct (bool_decide (name = g)); simpl; rewrite IH; reflexivity.
Qed.

Lemma group_of_memberships g ms :
  group_of g (memberships ms) = group_with_multiplicity g ms.
Proof.
  unfold group_with_multiplicity. induction ms as [|m rest IH]; [reflexivity|].
  rewrite memberships_cons. simpl. destruct (qualifying m); [|exact IH].
  simpl. rewrite group_of_app, group_of_one_movie, IH. reflexivity.
Qed.

Lemma group_with_multiplicity_length g ms :
  length (group_with_multiplicity g ms)
  = sum_list_with (fun m => occurrences g (genre_list m)) (List.filter qualifying ms).
Proof.
  unfold group_with_multiplicity.
  induction (List.filter qualifying ms) as [|m rest IH]; simpl; [reflexivity|].
  rewrite length_app, length_replicate, IH. reflexivity.
Qed.

(** *** One record *)

Lemma terms_rating l : forall ratings,
  terms rating_term l = Ok ratings -> ratings = map rating_value l.
Proof.
  induction l as [|m rest IH]; simpl; intros ratings H.
  - injection H as <-. reflexivity.
  - bind_ok H. bind_ok H. injection H as <-.
    rewrite <- (IH _ Hstep0). f_equal.
    unfold rating_term, rating_value in *.
    destruct (m_rating m); simpl in Hstep; congruence.
Qed.

Lemma genre_record_fields top g l s :
  genre_record top g l = Ok s ->
  genre_name s = g
  /\ movie_count s = Z.of_nat (length l)
  /\ top_movies s = slice_to top (ranking l).
Proof.
  unfold genre_record. intros H. bind_ok H. bind_ok H. bind_ok H.
  injection H as <-. simpl. apply terms_rating in Hstep. subst a.
  repeat split.
Qed.

Lemma genre_records_spec top stats : forall out,
  Forall (fun p => snd p <> []) stats ->
  genre_records top stats = Ok out ->
  Forall2 (fun p s => genre_record top (fst p) (snd p) = Ok s) stats out.
Proof.
  induction stats as [|[g l] rest IH]; intros out Hne H; cbn [genre_records] in H.
  - injection H as <-. constructor.
  - apply Forall_cons in Hne as [Hl Hrest]. simpl in Hl.
    destruct l as [|m l]; [contradiction|].
    bind_ok H. bind_ok H. injection H as <-.
    constructor; [exact Hstep | apply IH; assumption].
Qed.

Lemma records_names top stats out :
  Forall2 (fun p s => genre_record top (fst p) (snd p) = Ok s) stats out ->
  map genre_name out = map fst stats.
Proof.
  induction 1 as [|p s stats out Hps Hrest IH]; simpl; [reflexivity|].
  apply genre_record_fields in Hps as [-> _]. rewrite IH. reflexivity.
Qed.

Lemma records_elem top stats out s :
  Forall2 (fun p s => genre_record top (fst p) (snd p) = Ok s) stats out ->
  s ∈ out ->
  exists l, (genre_name s, l) ∈ stats /\ genre_record top (genre_name s) l = Ok s.
Proof.
  induction 1 as [|[g l] s' stats out Hps Hrest IH]; intros Hin.
  - apply elem_of_nil in Hin. contradiction.
  - apply elem_of_cons in Hin as [-> | Hin].
    + simpl in Hps. pose proof (genre_record_fields _ _ _ _ Hps) as [Hg _].
      subst g. exists l. split; [left | exact Hps].
    + destruct (IH Hin) as (l' & Hl' & Hrec). exists l'. split; [right; exact Hl' | exact Hrec].
Qed.

(** *** The whole pass *)

Lemma calculate_stats_spec ms top out :
  calculate_stats ms top = Ok out ->
  group_movies ms [] [] = Ok (stats_of (memberships ms) [], List.filter excluded ms)
  /\ genre_records top (stats_of (memberships ms) []) = Ok out
  /\ Forall2 (fun p s => genre_record top (fst p) (snd p) = Ok s)
       (stats_of (memberships ms) []) out.
Proof.
  unfold calculate_stats. intros H. bind_ok H. bind_ok H.
  pose proof (group_movies_spec _ _ _ _ Hstep) as Hr. simpl in Hr. subst a.
  simpl in H. split; [exact Hstep|]. split; [exact H|].
  apply genre_records_spec; [|exact H].
  apply stats_of_nonempty. constructor.
Qed.

Lemma stats_of_keys_NoDup pairs : NoDup (map fst (stats_of pairs [])).
Proof. rewrite stats_of_keys. apply fold_note_name_NoDup. constructor. Qed.

(** A record of the output is the record of its genre's group, and the
    group is the genre's memberships in input order. *)
Lemma calculate_stats_record ms top out s :
  calculate_stats ms top = Ok out -> s ∈ out ->
  group_of (genre_name s) (memberships ms) <> []
  /\ genre_record top (genre_name s) (group_of (genre_name s) (memberships ms)) = Ok s.
Proof.
  intros H Hs. apply calculate_stats_spec in H as (_ & _ & Hall).
  destruct (records_elem _ _ _ _ Hall Hs) as (l & Hl & Hrec).
  assert (Hgroup : l = group_of (genre_name s) (memberships ms)).
  { rewrite <- (group_in_elem _ _ _ (stats_of_keys_NoDup _) Hl).
    rewrite group_in_stats_of. reflexivity. }
  subst l. split; [|exact Hrec].
  pose proof (stats_of_nonempty (memberships ms) [] ltac:(constructor)) as Hne.
  rewrite Forall_forall in Hne. apply (Hne _ Hl).
Qed.

(** *** Statements about [calculate_stats] *)

(** C3. A movie with [vote_count <= 0] or [rating <= 0] is put aside by
    the first loop, before any record is computed: no group contains it,
    no [top_movies] contains it, and the output is the output for the
    input without such movies. *)
Theorem excluded_movies_never_counted (movies : list Movie) (top_count : Z)
    (out : list GenreStats) :
  calculate_stats movies top_count = Ok out ->
  calculate_stats (List.filter qualifying movies) top_count = Ok out
  /\ (exists stats,
        group_movies movies [] [] = Ok (stats, List.filter excluded movies)
        /\ genre_records top_count stats = Ok out
        /\ forall genre group m,
             (genre, group) ∈ stats -> m ∈ group ->
             excluded m = false
             /\ exists votes q, m_vote_count m = Val votes /\ 0 < votes
                                /\ m_rating m = Val q /\ (0 < q)%Q)
  /\ (forall s m, s ∈ out -> m ∈ top_movies s -> excluded m = false).
Proof.
  intros H.
  pose proof (calculate_stats_spec _ _ _ H) as (Hgroup & Hrecords & Hall).
  assert (Hmember : forall g m, (g, m) ∈ memberships movies ->
            excluded m = false /\ has_rating m = Ok true).
  { intros g m Hgm. apply memberships_elem in Hgm as (Hin & Hq & _).
    split; [unfold qualifying in Hq; apply negb_true_iff, Hq|].
    eapply group_movies_has_rating; eassumption. }
  split; [|split].
  - unfold calculate_stats.
    rewrite (group_movies_qualifying _ _ _ _ [] Hgroup). simpl. exact Hrecords.
  - exists (stats_of (memberships movies) []).
    split; [exact Hgroup|]. split; [exact Hrecords|].
    intros genre group m Hg Hm.
    rewrite <- (group_in_elem _ _ _ (stats_of_keys_NoDup _) Hg) in Hm.
    rewrite group_in_stats_of in Hm. simpl in Hm.
    apply group_of_elem, Hmember in Hm as [Hex Hrated].
    split; [exact Hex | apply has_rating_fields, Hrated].
  - intros s m Hs Hm.
    destruct (calculate_stats_record _ _ _ _ H Hs) as [_ Hrec].
    apply genre_record_fields in Hrec as (_ & _ & Htop).
    rewrite Htop in Hm. destruct (slice_to_take top_count
      (ranking (group_of (genre_name s) (memberships movies)))) as [k Hk].
    rewrite Hk in Hm. apply subseteq_take in Hm. rewrite ranking_perm in Hm.
    apply group_of_elem, Hmember in Hm. apply Hm.
Qed.

Lemma excluded_movies_never_counted_witness :
  calculate_stats (List.filter qualifying Samples.shelf) 10 = Ok [Samples.action_record]
  /\ forall s m, s ∈ [Samples.action_record] -> m ∈ top_movies s -> excluded m = false.
Proof.
  pose proof (excluded_movies_never_counted Samples.shelf 10 [Samples.action_record]
                eq_refl) as (Hfiltered & _ & Htop).
  split; [exact Hfiltered | exact Htop].
Defined.

(** C4. For a count [top_count >= 0] and every record of the output:
    [top_movies] has length [min(top_count, movie_count)], is in
    descending order of rating, and keeps movies of equal rating in the
    order of the input collection.  It is the front of a stable
    descending sort of the genre's group. *)
Theorem top_movies_ranked (movies : list Movie) (top_count : Z)
    (out : list GenreStats) (s : GenreStats) :
  0 <= top_count ->
  calculate_stats movies top_count = Ok out ->
  s ∈ out ->
  let group := group_of (genre_name s) (memberships movies) in
  group <> []
  /\ movie_count s = Z.of_nat (length group)
  /\ Z.of_nat (length (top_movies s)) = Z.min top_count (movie_count s)
  /\ Sorted rating_ge (top_movies s)
  /\ (forall q, rated q (top_movies s) `prefix_of` rated q group)
  /\ exists sorted,
       top_movies s = take (Z.to_nat top_count) sorted
       /\ sorted ≡ₚ group
       /\ Sorted rating_ge sorted
       /\ forall q, rated q sorted = rated q group.
Proof.
  intros Htop H Hs group.
  destruct (calculate_stats_record _ _ _ _ H Hs) as [Hne Hrec].
  apply genre_record_fields in Hrec as (_ & Hcount & Htopm).
  fold group in Hcount, Htopm.
  assert (Htake : top_movies s = take (Z.to_nat top_count) (ranking group)).
  { rewrite Htopm. unfold slice_to.
    destruct (0 <=? top_count) eqn:E; [reflexivity | apply Z.leb_gt in E; lia]. }
  split; [exact Hne|]. split; [exact Hcount|]. split; [|split; [|split]].
  - rewrite Htopm, slice_to_length by exact Htop.
    rewrite ranking_length, Hcount. reflexivity.
  - rewrite Htake. apply take_sorted, ranking_sorted.
  - intros q. rewrite Htake, <- (ranking_stable q group). apply take_rated.
  - exists (ranking group).
    split; [exact Htake|]. split; [apply ranking_perm|].
    split; [apply ranking_sorted | intros q; apply ranking_stable].
Qed.

Lemma top_movies_ranked_witness :
  Z.of_nat (length (top_movies Samples.action_record))
    = Z.min 10 (movie_count Samples.action_record)
  /\ Sorted rating_ge (top_movies Samples.action_record).
Proof.
  pose proof (top_movies_ranked Samples.shelf 10 [Samples.action_record]
                Samples.action_record ltac:(lia) eq_refl ltac:(left))
    as (_ & _ & Hlength & Hsorted & _).
  split; [exact Hlength | exact Hsorted].
Defined.

(** C7. The records come in the order in which the genres first received
    a qualifying movie; a genre is in the output exactly when some
    qualifying movie carries it, so a genre without qualifying movies
    has no record, and no record is empty. *)
Theorem records_in_first_membership_order (movies : list Movie) (top_count : Z)
    (out : list GenreStats) :
  calculate_stats movies top_count = Ok out ->
  map genre_name out = first_occurrences (map fst (memberships movies))
  /\ NoDup (map genre_name out)
  /\ (forall genre,
        genre ∈ map genre_name out
        <-> exists m, m ∈ movies /\ qualifying m = true /\ genre ∈ genre_list m)
  /\ Forall (fun s => 0 < movie_count s) out.
Proof.
  intros H.
  pose proof (calculate_stats_spec _ _ _ H) as (_ & _ & Hall).
  assert (Hnames : map genre_name out = first_occurrences (map fst (memberships movies))).
  { rewrite (records_names _ _ _ Hall), stats_of_keys. reflexivity. }
  split; [exact Hnames|]. split; [rewrite Hnames; apply first_occurrences_NoDup|].
  split.
  - intros genre. rewrite Hnames, first_occurrences_elem. split.
    + intros Hg. apply list_elem_of_fmap in Hg as ([g m] & -> & Hgm).
      apply memberships_elem in Hgm. exists m. exact Hgm.
    + intros (m & Hm). apply list_elem_of_fmap. exists (genre, m).
      split; [reflexivity | apply memberships_elem, Hm].
  - apply Forall_forall. intros s Hs.
    destruct (calculate_stats_record _ _ _ _ H Hs) as [Hne Hrec].
    apply genre_record_fields in Hrec as (_ & -> & _).
    destruct (group_of (genre_name s) (memberships movies)); [contradiction|].
    simpl. lia.
Qed.

Lemma records_in_first_membership_order_witness :
  map genre_name [Samples.action_record]
  = first_occurrences (map fst (memberships Samples.shelf)).
Proof.
  apply (records_in_first_membership_order Samples.shelf 10 [Samples.action_record]).
  reflexivity.
Defined.

(** *** Repeated genre names *)

Lemma genre_map_get_unresolved gm gid default :
  gid ∉ map fst gm -> genre_map_get gm gid default = default.
Proof.
  induction gm as [|[k name] rest IH]; simpl; intros Hout; [reflexivity|].
  destruct (k =? gid) eqn:E.
  - apply Z.eqb_eq in E. subst k. exfalso. apply Hout. left.
  - apply IH. intros Hin. apply Hout. right. exact Hin.
Qed.

Lemma positive_not_le q : (0 < q)%Q -> Qle_bool q 0 = false.
Proof.
  intros Hq. destruct (Qle_bool q 0) eqn:E; [|reflexivity].
  apply Qle_bool_iff in E. exfalso. exact (Qlt_not_le _ _ Hq E).
Qed.

Lemma Qle_bool_refl q : Qle_bool q q = true.
Proof. apply Qle_bool_iff, Qle_refl. Qed.

(** C9. A movie whose list of genre names holds a name more than once
    (two unresolved genre ids both become "Other") enters that genre's
    group once per occurrence: the record is computed from the group
    with multiplicities, so the movie is counted that often in
    [movie_count], the averages and [total_votes], and may appear that
    often in [top_movies]. *)
Theorem repeated_genre_counted_per_occurrence
    (gm : GenreMap) (a b : Z) (movies : list Movie) (top_count : Z)
    (out : list GenreStats) (s : GenreStats)
    (m : Movie) (genre : string) (votes : Z) (q : Q) :
  (a ∉ map fst gm -> b ∉ map fst gm ->
     Fetcher.genre_names_of gm (Some [a; b]) = ["Other"; "Other"])
  /\ (calculate_stats movies top_count = Ok out -> s ∈ out ->
       genre_record top_count (genre_name s)
         (group_with_multiplicity (genre_name s) movies) = Ok s
       /\ movie_count s
          = Z.of_nat (sum_list_with (fun m' => occurrences (genre_name s) (genre_list m'))
                        (List.filter qualifying movies))
       /\ top_movies s
          = slice_to top_count (ranking (group_with_multiplicity (genre_name s) movies)))
  /\ (m_vote_count m = Val votes -> 0 < votes ->
       m_rating m = Val q -> (0 < q)%Q ->
       m_genres m = Val [genre; genre] -> m_popularity m <> PyNone ->
       calculate_stats [m] top_count
       = Ok [ {| genre_name := genre;
                 average_rating := round2 (sumQ [q; q] / 2);
                 average_popularity :=
                   round2 (sumQ [popularity_value m; popularity_value m] / 2);
                 total_votes := votes + votes;
                 movie_count := 2;
                 top_movies := slice_to top_count [m; m] |} ]).
Proof.
  split; [|split].
  - intros Ha Hb. simpl.
    rewrite !genre_map_get_unresolved by assumption. reflexivity.
  - intros H Hs.
    destruct (calculate_stats_record _ _ _ _ H Hs) as [_ Hrec].
    rewrite group_of_memberships in Hrec.
    pose proof (genre_record_fields _ _ _ _ Hrec) as (_ & Hcount & Htop).
    split; [exact Hrec|]. split; [|exact Htop].
    rewrite Hcount, group_with_multiplicity_length. reflexivity.
  - intros Hvotes Hpos Hrating Hq Hgenres Hpop.
    unfold calculate_stats. cbn [group_movies].
    unfold has_rating, genres_of. rewrite Hvotes, Hrating, Hgenres.
    cbn [get_default positiveZ positiveQ subscript Py.bind].
    assert (Hv : (0 <? votes) = true) by lia. rewrite Hv.
    rewrite (positive_not_le _ Hq).
    cbn [negb Py.bind append_to_genres fold_left stats_append].
    destruct (decide (genre = genre)) as [_|Hne]; [|contradiction].
    cbn [snd fst log_skipped Py.bind app genre_records].
    unfold genre_record.
    cbn [terms]. unfold rating_term, popularity_term, vote_count_term, popularity_value.
    rewrite Hvotes, Hrating.
    destruct (m_popularity m) as [| |p]; [|contradiction|];
      cbn [get_default subscript Py.bind zip zip_with sorted_desc insert_desc fst];
      rewrite Qle_bool_refl; reflexivity.
Qed.

Lemma repeated_genre_counted_per_occurrence_witness :
  Fetcher.genre_names_of Samples.genre_map (Some [7; 9]) = ["Other"; "Other"]
  /\ calculate_stats [Samples.twice_other] 1
     = Ok [ {| genre_name := "Other";
               average_rating := round2 (sumQ [(6 # 1)%Q; (6 # 1)%Q] / 2);
               average_popularity := round2 (sumQ [0%Q; 0%Q] / 2);
               total_votes := 4 + 4;
               movie_count := 2;
               top_movies := slice_to 1 [Samples.twice_other; Samples.twice_other] |} ].
Proof.
  pose proof (repeated_genre_counted_per_occurrence Samples.genre_map 7 9
                [Samples.twice_other] 1 [] Samples.action_record
                Samples.twice_other "Other" 4 (6 # 1)) as (Hnames & _ & Hrecord).
  split.
  - apply Hnames; intros H; vm_compute in H; repeat
      (apply elem_of_cons in H as [H | H]; [discriminate|]); apply elem_of_nil in H;
      exact H.
  - apply Hrecord; first [reflexivity | lia | discriminate].
Defined.

(** *** Absent [popularity] and [vote_count] *)

(** C5, evaluated where it fails.  Both fetchers store [None] under
    "popularity" and "vote_count" when the raw entry lacks the key; on
    such a movie the default of [m.get(key, 0)] does not apply and
    [calculate_stats] raises [TypeError].  Only a movie dict that lacks
    the key itself is read as 0. *)
Theorem none_popularity_raises :
  Fetcher.get_representative_movies
    (fun _ _ => Samples.page_of [Samples.no_popularity]) Samples.genre_map 1
    = Ok [Samples.ran]
  /\ Fetcher.get_popular_movies
       (fun _ => Samples.page_of [Samples.no_popularity]) Samples.genre_map 1
     = Ok [Samples.ran]
  /\ m_popularity Samples.ran = PyNone
  /\ calculate_stats [Samples.ran] 10 = Raise TypeError
  /\ Fetcher.get_representative_movies
       (fun _ _ => Samples.page_of [Samples.no_vote_count]) Samples.genre_map 1
     = Ok [Samples.ikiru]
  /\ m_vote_count Samples.ikiru = PyNone
  /\ calculate_stats [Samples.ikiru] 10 = Raise TypeError
  /\ calculate_stats Samples.shelf 10 = Ok [Samples.action_record].
Proof. repeat split. Qed.

End AggregatorFacts.

(** ** Further properties of the fetchers *)

Module FetcherAccounting.
Import Fetcher FetcherFacts Accounting.

(** *** First occurrences *)

Lemma note_elem {A : Type} `{EqDecision A} (seen : list A) (x y : A) :
  y ∈ note seen x <-> y ∈ seen \/ y = x.
Proof.
  unfold note. destruct (decide (x ∈ seen)) as [Hin|Hout].
  - split; [auto|]. intros [Hy | ->]; assumption.
  - rewrite elem_of_app, list_elem_of_singleton. reflexivity.
Qed.

Lemma note_NoDup {A : Type} `{EqDecision A} (seen : list A) (x : A) :
  NoDup seen -> NoDup (note seen x).
Proof.
  intros Hn. unfold note. destruct (decide (x ∈ seen)) as [Hin|Hout]; [exact Hn|].
  apply NoDup_app. split; [exact Hn|]. split; [|apply NoDup_singleton].
  intros y Hy Hy'. apply list_elem_of_singleton in Hy'. subst y. contradiction.
Qed.

Lemma fold_note_elem {A : Type} `{EqDecision A} (l : list A) : forall seen y,
  y ∈ fold_left note l seen <-> y ∈ seen \/ y ∈ l.
Proof.
  induction l as [|x rest IH]; simpl; intros seen y.
  - rewrite elem_of_nil. tauto.
  - rewrite IH, note_elem, elem_of_cons. tauto.
Qed.

Lemma fold_note_NoDup {A : Type} `{EqDecision A} (l : list A) : forall seen,
  NoDup seen -> NoDup (fold_left note l seen).
Proof.
  induction l as [|x rest IH]; simpl; intros seen Hn; [exact Hn|].
  apply IH, note_NoDup, Hn.
Qed.

(** *** Every entry of the popular listing is accounted for *)

Lemma popular_entry_coherent gm st m st' :
  popular_entry gm st m = Ok st' -> coherent st -> coherent st'.
Proof.
  apply (popular_entry_progress keeps_coherent); unfold keeps_coherent;
    eauto using coherent_count_duplicate, coherent_retain.
Qed.

Lemma popular_entry_accounts gm st m st' :
  coherent st -> popular_entry gm st m = Ok st' ->
  coherent st'
  /\ load st' = load st + 1
  /\ exists i, r_id m = Some i
       /\ m_id <$> processed_movies st' = note (m_id <$> processed_movies st) i.
Proof.
  intros Hc H.
  split; [eapply popular_entry_coherent; eassumption|].
  unfold popular_entry, entry_id in H.
  destruct (r_id m) as [i|]; [|discriminate]. simpl in H.
  unfold note, load.
  destruct (decide (i ∈ seen_ids st)) as [Hin|Hout].
  - injection H as <-. unfold count_duplicate.
    cbn [processed_movies duplicates_count]. split; [lia|].
    exists i. split; [reflexivity|].
    apply (coherent_elem _ _ Hc) in Hin.
    destruct (decide (i ∈ m_id <$> processed_movies st)); [reflexivity | contradiction].
  - bind_ok H. bind_ok H. injection H as <-. unfold append_movie, mark_seen.
    cbn [processed_movies duplicates_count].
    rewrite length_app. cbn [length]. split; [lia|]. exists i. split; [reflexivity|].
    rewrite fmap_app. cbn [fmap list_fmap]. rewrite (make_movie_id _ _ _ _ Hstep0).
    destruct (decide (i ∈ m_id <$> processed_movies st)) as [Hin|_]; [|reflexivity].
    apply (coherent_elem _ _ Hc) in Hin. contradiction.
Qed.

Lemma popular_entries_accounts gm ms : forall st st',
  coherent st -> popular_entries gm ms st = Ok st' ->
  coherent st'
  /\ load st' = load st + Z.of_nat (length ms)
  /\ m_id <$> processed_movies st'
     = fold_left note (omap r_id ms) (m_id <$> processed_movies st).
Proof.
  induction ms as [|m rest IH]; simpl; intros st st' Hc H.
  - injection H as <-. split; [exact Hc|]. split; [lia | reflexivity].
  - bind_ok H.
    destruct (popular_entry_accounts _ _ _ _ Hc Hstep) as (Hc1 & Hl1 & i & Hi & Hids1).
    destruct (IH _ _ Hc1 H) as (Hc2 & Hl2 & Hids2).
    split; [exact Hc2|]. split; [lia|].
    rewrite Hi. simpl. rewrite Hids2, Hids1. reflexivity.
Qed.

Lemma popular_pages_accounts fetch gm pages : forall st st',
  coherent st -> popular_pages fetch gm pages st = Ok st' ->
  coherent st'
  /\ load st' = load st + Z.of_nat (length (flat_map (page_entries fetch) pages))
  /\ m_id <$> processed_movies st'
     = fold_left note (omap r_id (flat_map (page_entries fetch) pages))
         (m_id <$> processed_movies st).
Proof.
  induction pages as [|page rest IH]; simpl; intros st st' Hc H.
  - injection H as <-. split; [exact Hc|]. split; [lia | reflexivity].
  - bind_ok H.
    assert (Hpage : coherent a
      /\ load a = load st + Z.of_nat (length (page_entries fetch page))
      /\ m_id <$> processed_movies a
         = fold_left note (omap r_id (page_entries fetch page))
             (m_id <$> processed_movies st)).
    { unfold popular_page in Hstep. unfold page_entries.
      destruct (status_code (fetch page) =? 200).
      - eapply popular_entries_accounts; eassumption.
      - injection Hstep as <-. split; [exact Hc|]. split; [simpl; lia | reflexivity]. }
    destruct Hpage as (Hc1 & Hl1 & Hids1).
    destruct (IH _ _ Hc1 H) as (Hc2 & Hl2 & Hids2).
    split; [exact Hc2|]. rewrite length_app, omap_app, fold_left_app.
    split; [lia | rewrite Hids2, Hids1; reflexivity].
Qed.

(** X1.  Every raw entry delivered by a page with status 200 is either
    retained or counted as a duplicate. *)
Theorem popular_entries_all_accounted (fetch : Z -> Response) (genre_map : GenreMap)
    (pages : Z) (st : State) :
  popular_run fetch genre_map pages = Ok st ->
  Z.of_nat (length (processed_movies st)) + duplicates_count st
  = Z.of_nat (length (listed_entries fetch pages)).
Proof.
  intros H. unfold popular_run in H.
  destruct (popular_pages_accounts _ _ _ _ _ coherent_initial H) as (_ & Hload & _).
  unfold load in Hload. simpl in Hload. unfold listed_entries. lia.
Qed.

Lemma popular_entries_all_accounted_witness :
  Z.of_nat (length [Samples.heat_movie]) + 1
  = Z.of_nat (length (listed_entries Samples.popular_twice 1)).
Proof.
  apply (popular_entries_all_accounted Samples.popular_twice Samples.genre_map 1
           {| processed_movies := [Samples.heat_movie];
              seen_ids := {[ 949 ]};
              duplicates_count := 1 |}).
  vm_compute. reflexivity.
Defined.





(** *** Nothing to request *)




(** *** The quota bounds what a genre consumes *)

Lemma representative_entries_quota gm target ms : forall st collected st' collected',
  representative_entries gm target ms st collected = Ok (st', collected') ->
  load st' - load st = collected' - collected
  /\ collected <= collected' /\ collected' <= Z.max collected target.
Proof.
  induction ms as [|m rest IH]; intros st c st' c' H; cbn [representative_entries] in H.
  - injection H as <- <-. lia.
  - destruct (target <=? c) eqn:Hq; [injection H as <- <-; lia|].
    apply Z.leb_gt in Hq. bind_ok H.
    destruct (decide (a ∈ seen_ids st)) as [Hin|Hout].
    + apply IH in H. unfold load, count_duplicate in *.
      cbn [processed_movies duplicates_count] in H. lia.
    + bind_ok H. apply IH in H. unfold load, append_movie, mark_seen in *.
      cbn [processed_movies duplicates_count] in H.
      rewrite length_app in H. cbn [length] in H. lia.
Qed.

Lemma representative_pages_quota fetch gm target gid pages : forall st collected st',
  representative_pages fetch gm target gid pages st collected = Ok st' ->
  load st' <= load st + (Z.max collected target - collected).
Proof.
  induction pages as [|page rest IH]; intros st c st' H;
    cbn [representative_pages] in H.
  - injection H as <-. lia.
  - destruct (target <=? c); [injection H as <-; lia|].
    destruct (status_code (fetch gid page) =? 200); [|injection H as <-; lia].
    destruct (results_or_empty (fetch gid page)) as [|m ms]; [injection H as <-; lia|].
    bind_ok H. destruct a as [st1 c1]. cbn [fst snd] in H.
    apply representative_entries_quota in Hstep. apply IH in H. lia.
Qed.

Lemma representative_genres_quota fetch gm target pages genres : forall st st',
  representative_genres fetch gm target pages genres st = Ok st' ->
  load st' <= load st + Z.of_nat (length genres) * Z.max 0 target.
Proof.
  induction genres as [|[gid name] rest IH]; intros st st' H;
    cbn [representative_genres] in H.
  - injection H as <-. simpl. lia.
  - bind_ok H. apply representative_pages_quota in Hstep. apply IH in H.
    cbn [length]. lia.
Qed.

(** X4.  [get_representative_movies] consumes at most [target_per_genre] raw
    entries per genre, retained movies and duplicates together; so it
    returns at most [target_per_genre] movies per genre of the map. *)
Theorem representative_consumes_at_most_quota (fetch : Z -> Z -> Response)
    (genre_map : GenreMap) (target_per_genre : Z) (st : State) :
  representative_run fetch genre_map target_per_genre = Ok st ->
  Z.of_nat (length (processed_movies st)) + duplicates_count st
    <= Z.of_nat (length genre_map) * Z.max 0 target_per_genre
  /\ 0 <= duplicates_count st
  /\ Z.of_nat (length (processed_movies st))
     <= Z.of_nat (length genre_map) * Z.max 0 target_per_genre.
Proof.
  intros H. unfold representative_run in H.
  pose proof (representative_genres_quota _ _ _ _ _ _ _ H) as Hq.
  pose proof (representative_genres_remembers _ _ _ _ _ _ _ H) as [_ Hd].
  unfold load in Hq. simpl in Hq, Hd. lia.
Qed.

Lemma representative_consumes_at_most_quota_witness :
  Z.of_nat (length (processed_movies Samples.heat_state))
  <= Z.of_nat (length Samples.genre_map) * Z.max 0 100.
Proof.
  apply (representative_consumes_at_most_quota Samples.discover_heat Samples.genre_map
           100 Samples.heat_state).
  vm_compute. reflexivity.
Defined.

(** *** The shape of what is retained *)

Section Retention.
Variable genre_map : GenreMap.
Variable P : Movie -> Prop.
Hypothesis P_made : forall i ids m mv,
  make_movie i (genre_names_of genre_map ids) m = Ok mv -> P mv.

Lemma popular_entries_retain ms : forall st st',
  Forall P (processed_movies st) ->
  popular_entries genre_map ms st = Ok st' -> Forall P (processed_movies st').
Proof using P_made.
  induction ms as [|m rest IH]; intros st st' HP H; cbn [popular_entries] in H.
  - injection H as <-. exact HP.
  - apply bind_Ok in H as (st1 & Hentry & Hrest). eapply IH; [|exact Hrest].
    unfold popular_entry in Hentry. apply bind_Ok in Hentry as (i & _ & Hentry).
    destruct (decide (i ∈ seen_ids st)); [injection Hentry as <-; exact HP|].
    apply bind_Ok in Hentry as (ids & _ & Hentry).
    apply bind_Ok in Hentry as (mv & Hmv & Hentry). injection Hentry as <-.
    cbn [append_movie processed_movies mark_seen].
    apply Forall_app. split; [exact HP|]. constructor; [|constructor].
    eapply P_made, Hmv.
Qed.

Lemma popular_pages_retain fetch pages : forall st st',
  Forall P (processed_movies st) ->
  popular_pages fetch genre_map pages st = Ok st' -> Forall P (processed_movies st').
Proof using P_made.
  induction pages as [|page rest IH]; intros st st' HP H; cbn [popular_pages] in H.
  - injection H as <-. exact HP.
  - apply bind_Ok in H as (st1 & Hpage & Hrest). eapply IH; [|exact Hrest].
    unfold popular_page in Hpage.
    destruct (status_code (fetch page) =? 200); [|injection Hpage as <-; exact HP].
    eapply popular_entries_retain; eassumption.
Qed.

Lemma representative_entries_retain target ms : forall st collected st' collected',
  Forall P (processed_movies st) ->
  representative_entries genre_map target ms st collected = Ok (st', collected') ->
  Forall P (processed_movies st').
Proof using P_made.
  induction ms as [|m rest IH]; intros st c st' c' HP H;
    cbn [representative_entries] in H.
  - injection H as <- _. exact HP.
  - destruct (target <=? c); [injection H as <- _; exact HP|].
    apply bind_Ok in H as (i & _ & H).
    destruct (decide (i ∈ seen_ids st)); [eapply IH; [|exact H]; exact HP|].
    apply bind_Ok in H as (mv & Hmv & H). eapply IH; [|exact H].
    cbn [append_movie processed_movies mark_seen].
    apply Forall_app. split; [exact HP|]. constructor; [|constructor].
    eapply P_made, Hmv.
Qed.

Lemma representative_pages_retain fetch target gid pages : forall st collected st',
  Forall P (processed_movies st) ->
  representative_pages fetch genre_map target gid pages st collected = Ok st' ->
  Forall P (processed_movies st').
Proof using P_made.
  induction pages as [|page rest IH]; intros st c st' HP H;
    cbn [representative_pages] in H.
  - injection H as <-. exact HP.
  - destruct (target <=? c); [injection H as <-; exact HP|].
    destruct (status_code (fetch gid page) =? 200); [|injection H as <-; exact HP].
    destruct (results_or_empty (fetch gid page)) as [|m ms]; [injection H as <-; exact HP|].
    apply bind_Ok in H as ([st1 c1] & Hentries & H). cbn [fst snd] in H.
    eapply IH; [|exact H]. eapply representative_entries_retain; eassumption.
Qed.

Lemma representative_genres_retain fetch target pages genres : forall st st',
  Forall P (processed_movies st) ->
  representative_genres fetch genre_map target pages genres st = Ok st' ->
  Forall P (processed_movies st').
Proof using P_made.
  induction genres as [|[gid name] rest IH]; intros st st' HP H;
    cbn [representative_genres] in H.
  - injection H as <-. exact HP.
  - apply bind_Ok in H as (st1 & Hpages & H). eapply IH; [|exact H].
    eapply representative_pages_retain; eassumption.
Qed.

End Retention.

Lemma genre_names_of_known gm ids name :
  name ∈ genre_names_of gm ids -> name = "Other" \/ name ∈ map snd gm.
Proof.
  assert (Hget : forall g, genre_map_get gm g "Other" = "Other"
                           \/ genre_map_get gm g "Other" ∈ map snd gm).
  { intros g. induction gm as [|[k v] rest IH]; simpl; [left; reflexivity|].
    destruct (k =? g); [right; left|].
    destruct IH as [IH|IH]; [left; exact IH | right; right; exact IH]. }
  unfold genre_names_of. destruct ids as [[|gid gids]|].
  - intros H. apply list_elem_of_singleton in H. left. exact H.
  - intros H. apply list_elem_of_fmap in H as (g & -> & _). apply Hget.
  - intros H. apply list_elem_of_singleton in H. left. exact H.
Qed.

Lemma genre_names_of_nonempty gm ids : genre_names_of gm ids <> [].
Proof. unfold genre_names_of. destruct ids as [[|gid gids]|]; discriminate. Qed.

Lemma make_movie_shape gm i ids m mv :
  make_movie i (genre_names_of gm ids) m = Ok mv -> fetched_shape gm mv.
Proof.
  unfold make_movie. intros H.
  apply bind_Ok in H as (title & _ & H). apply bind_Ok in H as (rating & _ & H).
  injection H as <-. unfold fetched_shape. cbn.
  repeat (split; [unfold store; repeat case_match; discriminate|]).
  exists (genre_names_of gm ids). split; [reflexivity|].
  split; [apply genre_names_of_nonempty | intros name; apply genre_names_of_known].
Qed.

(** X5.  Every movie a fetcher returns holds all eight keys of the dict
    literal, and its genres are a non-empty list of names, each a name
    of the genre map or "Other". *)
Theorem fetched_movies_have_every_key (popular : Z -> Response)
    (discover : Z -> Z -> Response) (genre_map : GenreMap) (pages target : Z)
    (items : list Movie) :
  (get_popular_movies popular genre_map pages = Ok items ->
     Forall (fetched_shape genre_map) items)
  /\ (get_representative_movies discover genre_map target = Ok items ->
       Forall (fetched_shape genre_map) items).
Proof.
  split; intros H.
  - unfold get_popular_movies in H. apply bind_Ok in H as (st & Hrun & H).
    injection H as <-.
    apply (popular_pages_retain genre_map (fetched_shape genre_map)
             (make_movie_shape genre_map) popular (range1 pages) initial st);
      [constructor | exact Hrun].
  - unfold get_representative_movies in H. apply bind_Ok in H as (st & Hrun & H).
    injection H as <-.
    apply (representative_genres_retain genre_map (fetched_shape genre_map)
             (make_movie_shape genre_map) discover target
             (range1 (pages_to_fetch target)) genre_map initial st);
      [constructor | exact Hrun].
Qed.

Lemma fetched_movies_have_every_key_witness :
  Forall (fetched_shape Samples.genre_map) [Samples.heat_movie].
Proof.
  pose proof (fetched_movies_have_every_key Samples.popular_twice Samples.discover_heat
                Samples.genre_map 1 100 [Samples.heat_movie]) as [Hp Hd].
  pose proof (Hd eq_refl) as _.
  exact (Hp eq_refl).
Defined.

Lemma popular_items_shape fetch gm pages items :
  get_popular_movies fetch gm pages = Ok items -> Forall (fetched_shape gm) items.
Proof.
  intros H. unfold get_popular_movies in H. apply bind_Ok in H as (st & Hrun & H).
  injection H as <-.
  apply (popular_pages_retain gm (fetched_shape gm) (make_movie_shape gm)
           fetch (range1 pages) initial st); [constructor | exact Hrun].
Qed.

Lemma representative_items_shape fetch gm target items :
  get_representative_movies fetch gm target = Ok items -> Forall (fetched_shape gm) items.
Proof.
  intros H. unfold get_representative_movies in H.
  apply bind_Ok in H as (st & Hrun & H). injection H as <-.
  apply (representative_genres_retain gm (fetched_shape gm) (make_movie_shape gm)
           fetch target (range1 (pages_to_fetch target)) gm initial st);
    [constructor | exact Hrun].
Qed.

End FetcherAccounting.

(** ** Properties of the genre catalog *)

Module CatalogFacts.
Import Catalog Accounting FetcherAccounting.

Lemma genre_map_set_keys gm k v :
  map fst (genre_map_set gm k v) = note (map fst gm) k.
Proof.
  unfold note. induction gm as [|[k' v'] rest IH]; simpl.
  - destruct (decide (k ∈ [])) as [Hin|_]; [|reflexivity].
    apply elem_of_nil in Hin. contradiction.
  - destruct (k' =? k) eqn:E; simpl.
    + apply Z.eqb_eq in E. subst k'.
      destruct (decide (k ∈ k :: map fst rest)) as [_|Hout]; [reflexivity|].
      exfalso. apply Hout. left.
    + apply Z.eqb_neq in E. rewrite IH.
      destruct (decide (k ∈ map fst rest)) as [Hin|Hout];
        destruct (decide (k ∈ k' :: map fst rest)) as [Hin'|Hout'];
        try reflexivity.
      * exfalso. apply Hout'. right. exact Hin.
      * exfalso. apply elem_of_cons in Hin' as [->|Hin']; [apply E | apply Hout]; auto.
Qed.

Lemma genre_map_get_set gm k v k' d :
  genre_map_get (genre_map_set gm k v) k' d
  = if k =? k' then v else genre_map_get gm k' d.
Proof.
  induction gm as [|[k0 v0] rest IH]; simpl.
  - reflexivity.
  - destruct (k0 =? k) eqn:E0; simpl.
    + apply Z.eqb_eq in E0. subst k0. destruct (k =? k'); reflexivity.
    + destruct (k0 =? k') eqn:E1; [|exact IH].
      apply Z.eqb_eq in E1. subst k0. rewrite Z.eqb_sym, E0. reflexivity.
Qed.

Lemma collect_genres_spec genres : forall acc gm,
  collect_genres genres acc = Ok gm ->
  map fst gm = fold_left note (omap g_id genres) (map fst acc)
  /\ forall k d,
       genre_map_get gm k d = default (genre_map_get acc k d) (listed_name k genres).
Proof.
  induction genres as [|g rest IH]; intros acc gm H; cbn [collect_genres] in H.
  - injection H as <-. split; [reflexivity | intros; reflexivity].
  - cbn [omap list_omap listed_name].
    destruct (g_id g) as [k0|]; [|discriminate].
    destruct (g_name g) as [v0|]; [|discriminate].
    destruct (IH _ _ H) as [Hkeys Hget]. split.
    + cbn [fold_left]. rewrite Hkeys, genre_map_set_keys. reflexivity.
    + intros k d. rewrite Hget, genre_map_get_set.
      destruct (listed_name k rest); [reflexivity|].
      destruct (decide (Some k0 = Some k)) as [Heq|Hne].
      * injection Heq as ->. rewrite Z.eqb_refl. reflexivity.
      * destruct (k0 =? k) eqn:E; [|reflexivity].
        apply Z.eqb_eq in E. subst k0. contradiction.
Qed.

(** X6.  The genre map returned by [fetch_genre_map] holds each listed id
    once, in the order the ids are first listed; an id resolves to the
    name of the last entry carrying it, any other id to the default.
    After a status other than 200 the map is empty. *)
Theorem genre_map_resolves_listed_ids (response : GenresResponse) (genre_map : GenreMap) :
  fetch_genre_map response = Ok genre_map ->
  NoDup (map fst genre_map)
  /\ (genres_status response <> 200 -> genre_map = [])
  /\ (genres_status response = 200 ->
       map fst genre_map = firsts (omap g_id (genres_or_empty response))
       /\ forall k d,
            genre_map_get genre_map k d
            = default d (listed_name k (genres_or_empty response))).
Proof.
  unfold fetch_genre_map. intros H.
  destruct (genres_status response =? 200) eqn:E.
  - apply Z.eqb_eq in E. apply collect_genres_spec in H as [Hkeys Hget].
    split; [rewrite Hkeys; apply fold_note_NoDup; constructor|].
    split; [intros Hne; contradiction|].
    intros _. split; [exact Hkeys | exact Hget].
  - apply Z.eqb_neq in E. injection H as <-.
    split; [constructor|]. split; [reflexivity | intros Heq; contradiction].
Qed.

Lemma genre_map_resolves_listed_ids_witness :
  NoDup (map fst [(28, "Action"); (35, "Comedy")]).
Proof.
  apply (genre_map_resolves_listed_ids
           {| genres_status := 200;
              genres_listed :=
                Some [ {| g_id := Some 28; g_name := Some "Adventure" |};
                       {| g_id := Some 35; g_name := Some "Comedy" |};
                       {| g_id := Some 28; g_name := Some "Action" |} ] |}).
  reflexivity.
Defined.

Lemma collect_genres_total genres : forall acc,
  (exists gm, collect_genres genres acc = Ok gm) <-> Forall complete genres.
Proof.
  induction genres as [|g rest IH]; intros acc; cbn [collect_genres].
  - split; [constructor | eauto].
  - rewrite Forall_cons. unfold complete at 1.
    destruct (g_id g) as [k|]; [destruct (g_name g) as [v|]|].
    + rewrite IH. split; [intros H; split; [split; eauto | exact H] | tauto].
    + split; [intros [gm H]; discriminate | intros [[_ [v Hv]] _]; discriminate].
    + split; [intros [gm H]; discriminate | intros [[[k Hk] _] _]; discriminate].
Qed.

(** X7.  [fetch_genre_map] raises nothing after a status other than 200;
    after status 200 it returns exactly when every listed genre has both
    its "id" and its "name". *)
Theorem genre_map_returned_iff_complete (response : GenresResponse) :
  (exists genre_map, fetch_genre_map response = Ok genre_map)
  <-> genres_status response <> 200 \/ Forall complete (genres_or_empty response).
Proof.
  unfold fetch_genre_map. destruct (genres_status response =? 200) eqn:E.
  - apply Z.eqb_eq in E. rewrite collect_genres_total. split; [auto|].
    intros [Hne | H]; [contradiction | exact H].
  - apply Z.eqb_neq in E. split; [auto | eauto].
Qed.

End CatalogFacts.

(** ** Further properties of the aggregation pass *)

Module AggregatorAccounting.
Import Aggregator Reference AggregatorFacts Accounting.

(** *** When the pass returns *)

Lemma terms_Ok {A : Type} (term : Movie -> result A) l :
  (exists xs, terms term l = Ok xs) <-> Forall (fun m => exists x, term m = Ok x) l.
Proof.
  induction l as [|m rest IH]; cbn [terms].
  - split; [constructor | eauto].
  - rewrite Forall_cons, <- IH. split.
    + intros [xs H]. apply bind_Ok in H as (x & Hx & H).
      apply bind_Ok in H as (xs' & Hxs & _). eauto.
    + intros [[x Hx] [xs Hxs]]. rewrite Hx, Hxs. simpl. eauto.
Qed.

Lemma log_skipped_Ok l :
  log_skipped l = Ok tt
  <-> Forall (fun m => (exists genres, m_genres m = Val genres) /\ m_title m <> Missing) l.
Proof.
  induction l as [|m rest IH]; cbn [log_skipped].
  - split; [constructor | reflexivity].
  - rewrite Forall_cons, <- IH. unfold log_skipped_movie, genres_of.
    destruct (m_genres m) as [| |genres]; simpl.
    + split; [discriminate | intros [[[g Hg] _] _]; discriminate].
    + split; [discriminate | intros [[[g Hg] _] _]; discriminate].
    + destruct (m_title m) as [| |title]; simpl.
      * split; [discriminate | intros [[_ Ht] _]; contradiction].
      * split; [intros H; repeat split; eauto; discriminate | tauto].
      * split; [intros H; repeat split; eauto; discriminate | tauto].
Qed.

Lemma group_movies_Ok ms : forall stats skipped,
  (exists r, group_movies ms stats skipped = Ok r)
  <-> Forall (fun m => has_rating m = Ok false
                       \/ (has_rating m = Ok true
                           /\ exists genres, m_genres m = Val genres)) ms.
Proof.
  induction ms as [|m rest IH]; intros stats skipped; cbn [group_movies].
  - split; [constructor | eauto].
  - rewrite Forall_cons. destruct (has_rating m) as [[|]|e]; simpl.
    + unfold genres_of. destruct (m_genres m) as [| |genres]; simpl.
      * split; [intros [r H]; discriminate|].
        intros [[H | [_ [g Hg]]] _]; discriminate.
      * split; [intros [r H]; discriminate|].
        intros [[H | [_ [g Hg]]] _]; discriminate.
      * rewrite IH. split; [intros H; split; [right; eauto | exact H] | tauto].
    + rewrite IH. split; [intros H; split; [left; reflexivity | exact H] | tauto].
    + split; [intros [r H]; discriminate|].
      intros [[H | [H _]] _]; discriminate.
Qed.

Lemma genre_records_Ok top stats :
  (exists out, genre_records top stats = Ok out)
  <-> Forall (fun p => snd p = [] \/ exists s, genre_record top (fst p) (snd p) = Ok s) stats.
Proof.
  induction stats as [|[g l] rest IH]; cbn [genre_records].
  - split; [constructor | eauto].
  - rewrite Forall_cons, <- IH. cbn [fst snd]. destruct l as [|m l].
    + split; [intros H; split; [left; reflexivity | exact H] | tauto].
    + split.
      * intros [out H]. apply bind_Ok in H as (s & Hs & H).
        apply bind_Ok in H as (ss & Hss & _). split; [right|]; eauto.
      * intros [[Hnil | [s Hs]] [ss Hss]]; [discriminate|].
        rewrite Hs, Hss. simpl. eauto.
Qed.

Lemma genre_record_Ok top g l :
  (exists s, genre_record top g l = Ok s)
  <-> Forall (fun m => (exists q, rating_term m = Ok q)
                       /\ (exists p, popularity_term m = Ok p)
                       /\ (exists v, vote_count_term m = Ok v)) l.
Proof.
  rewrite !Forall_and, <- !terms_Ok. unfold genre_record. split.
  - intros [s H]. apply bind_Ok in H as (rs & Hrs & H).
    apply bind_Ok in H as (ps & Hps & H). apply bind_Ok in H as (vs & Hvs & _).
    split; [eauto|]. split; eauto.
  - intros ([rs Hrs] & [ps Hps] & [vs Hvs]). rewrite Hrs, Hps, Hvs. simpl. eauto.
Qed.

Lemma group_of_elem_iff g pairs m : m ∈ group_of g pairs <-> (g, m) ∈ pairs.
Proof.
  split; [apply group_of_elem|]. intros H. unfold group_of.
  apply list_elem_of_fmap. exists (g, m). split; [reflexivity|].
  apply list_elem_of_In, filter_In. split; [apply list_elem_of_In, H|].
  apply bool_decide_eq_true. reflexivity.
Qed.

Lemma stats_of_groups pairs g l :
  (g, l) ∈ stats_of pairs [] <-> l = group_of g pairs /\ g ∈ map fst pairs.
Proof.
  split.
  - intros H. split.
    + rewrite <- (group_in_elem _ _ _ (stats_of_keys_NoDup _) H), group_in_stats_of.
      reflexivity.
    + apply first_occurrences_elem. unfold first_occurrences.
      change (@nil string) with (map fst (@nil (string * list Movie))).
      rewrite <- stats_of_keys. apply list_elem_of_fmap. exists (g, l). auto.
  - intros [-> Hg].
    assert (Hkey : g ∈ map fst (stats_of pairs [])).
    { rewrite stats_of_keys. apply fold_note_name_elem. right. exact Hg. }
    apply list_elem_of_fmap in Hkey as ([g' l'] & Heq & Hin). simpl in Heq. subst g'.
    rewrite <- (group_in_elem _ _ _ (stats_of_keys_NoDup _) Hin), group_in_stats_of in Hin.
    exact Hin.
Qed.

Lemma rated_terms m :
  has_rating m = Ok true ->
  (exists q, rating_term m = Ok q) /\ (exists v, vote_count_term m = Ok v).
Proof.
  intros H. apply has_rating_fields in H as (votes & q & Hv & _ & Hq & _).
  unfold rating_term, vote_count_term. rewrite Hv, Hq. simpl. eauto.
Qed.

Lemma popularity_term_Ok m : (exists p, popularity_term m = Ok p) <-> m_popularity m <> PyNone.
Proof.
  unfold popularity_term. destruct (m_popularity m); simpl.
  - split; [discriminate | eauto].
  - split; [intros [p H]; discriminate | contradiction].
  - split; [discriminate | eauto].
Qed.

(** X8.  [calculate_stats] returns exactly when every movie of the input is
    admissible; otherwise it raises. *)
Theorem calculate_stats_returns_iff_admissible (movies : list Movie) (top_count : Z) :
  (exists out, calculate_stats movies top_count = Ok out) <-> Forall admissible movies.
Proof.
  split.
  - intros [out H].
    pose proof (calculate_stats_spec _ _ _ H) as (Hgroup & Hrecords & _).
    assert (Hlog : log_skipped (List.filter excluded movies) = Ok tt).
    { unfold calculate_stats in H. rewrite Hgroup in H. simpl in H.
      destruct (log_skipped (List.filter excluded movies)) as [[]|]; [reflexivity|discriminate]. }
    apply log_skipped_Ok in Hlog. rewrite Forall_forall in Hlog.
    assert (Heach := proj1 (group_movies_Ok movies [] []) (ex_intro _ _ Hgroup)).
    assert (Hrec := proj1 (genre_records_Ok _ _) (ex_intro _ _ Hrecords)).
    rewrite Forall_forall in Heach. rewrite Forall_forall in Hrec.
    apply Forall_forall. intros m Hm.
    unfold admissible. destruct (Heach m Hm) as [Hf | [Ht [genres Hg]]].
    + rewrite Hf. apply Hlog. apply list_elem_of_In, filter_In.
      split; [apply list_elem_of_In, Hm|].
      apply has_rating_qualifying in Hf. unfold qualifying in Hf.
      destruct (excluded m); [reflexivity | discriminate].
    + rewrite Ht. exists genres. split; [exact Hg|]. intros Hne.
      destruct genres as [|g genres]; [contradiction|].
      assert (Hpair : (g, m) ∈ memberships movies).
      { apply memberships_elem. split; [exact Hm|].
        split; [symmetry; apply has_rating_qualifying, Ht|].
        unfold genre_list. rewrite Hg. left. }
      assert (Hin : (g, group_of g (memberships movies)) ∈ stats_of (memberships movies) []).
      { apply stats_of_groups. split; [reflexivity|].
        apply list_elem_of_fmap. exists (g, m). auto. }
      destruct (Hrec _ Hin) as [Hnil | Hs]; cbn [fst snd] in *.
      * apply group_of_elem_iff in Hpair. rewrite Hnil in Hpair.
        apply elem_of_nil in Hpair. contradiction.
      * apply genre_record_Ok in Hs. rewrite Forall_forall in Hs.
        apply popularity_term_Ok. apply (Hs m). apply group_of_elem_iff, Hpair.
  - intros Hall. rewrite Forall_forall in Hall.
    assert (Hgroup : exists r, group_movies movies [] [] = Ok r).
    { apply group_movies_Ok. apply Forall_forall. intros m Hm.
      specialize (Hall m Hm). unfold admissible in Hall.
      destruct (has_rating m) as [[|]|e]; [right | left | contradiction]; [|reflexivity].
      destruct Hall as (genres & Hg & _). eauto. }
    destruct Hgroup as [r Hgroup].
    pose proof (group_movies_spec _ _ _ _ Hgroup) as Hr. simpl in Hr. subst r.
    assert (Hlog : log_skipped (List.filter excluded movies) = Ok tt).
    { apply log_skipped_Ok, Forall_forall. intros m Hm.
      apply list_elem_of_In, filter_In in Hm as [Hm Hex].
      apply list_elem_of_In in Hm. specialize (Hall m Hm). unfold admissible in Hall.
      destruct (has_rating m) as [[|]|e] eqn:Hr; [|exact Hall|contradiction].
      apply has_rating_qualifying in Hr. unfold qualifying in Hr.
      rewrite Hex in Hr. discriminate. }
    assert (Hrec : exists out,
      genre_records top_count (stats_of (memberships movies) []) = Ok out).
    { apply genre_records_Ok, Forall_forall. intros [g l] Hin. right. cbn [fst snd].
      apply stats_of_groups in Hin as [-> _].
      apply genre_record_Ok, Forall_forall. intros m Hm.
      apply group_of_elem_iff, memberships_elem in Hm as (Hm & Hq & Hg).
      specialize (Hall m Hm). unfold admissible in Hall.
      destruct (has_rating m) as [[|]|e] eqn:Hr; [| |contradiction].
      - destruct (rated_terms _ Hr) as [Hrt Hvt].
        split; [exact Hrt|]. split; [|exact Hvt].
        apply popularity_term_Ok. destruct Hall as (genres & Hgs & Hpop).
        apply Hpop. unfold genre_list in Hg. rewrite Hgs in Hg.
        intros ->. apply elem_of_nil in Hg. contradiction.
      - apply has_rating_qualifying in Hr. congruence. }
    destruct Hrec as [out Hrec]. exists out.
    unfold calculate_stats. rewrite Hgroup. cbn [Py.bind fst snd].
    rewrite Hlog. exact Hrec.
Qed.

(** *** Which exception *)

Lemma has_rating_raise m e : has_rating m = Raise e -> e = TypeError.
Proof.
  unfold has_rating.
  destruct (m_vote_count m) as [| |votes]; simpl; try congruence.
  - destruct (0 <? votes); [|discriminate].
    destruct (m_rating m); simpl; congruence.
Qed.

Lemma terms_raise {A : Type} (term : Movie -> result A) l e :
  terms term l = Raise e -> exists m, m ∈ l /\ term m = Raise e.
Proof.
  induction l as [|m rest IH]; cbn [terms]; [discriminate|].
  intros H. apply bind_Raise in H as [H | (x & _ & H)].
  - exists m. split; [left | exact H].
  - apply bind_Raise in H as [H | (xs & _ & H)]; [|discriminate].
    destruct (IH H) as (m' & Hin & Hm'). exists m'. split; [right; exact Hin | exact Hm'].
Qed.

Lemma group_movies_raise ms e : forall stats skipped,
  Forall (fun m => exists genres, m_genres m = Val genres) ms ->
  group_movies ms stats skipped = Raise e -> e = TypeError.
Proof.
  induction ms as [|m rest IH]; intros stats skipped Hall H; cbn [group_movies] in H;
    [discriminate|].
  apply Forall_cons in Hall as [[genres Hg] Hall].
  apply bind_Raise in H as [H | (keep & _ & H)]; [eapply has_rating_raise, H|].
  destruct keep; [|eapply IH; eassumption].
  unfold genres_of in H. rewrite Hg in H. simpl in H. eapply IH; eassumption.
Qed.

Lemma genre_record_raise top g l e :
  Forall (fun m => m_rating m <> Missing) l ->
  genre_record top g l = Raise e -> e = TypeError.
Proof.
  intros Hall H. rewrite Forall_forall in Hall. unfold genre_record in H.
  apply bind_Raise in H as [H | (rs & _ & H)].
  { apply terms_raise in H as (m & Hm & H). unfold rating_term in H.
    specialize (Hall m Hm). destruct (m_rating m); simpl in H; congruence. }
  apply bind_Raise in H as [H | (ps & _ & H)].
  { apply terms_raise in H as (m & _ & H). unfold popularity_term in H.
    destruct (m_popularity m); simpl in H; congruence. }
  apply bind_Raise in H as [H | (vs & _ & H)]; [|discriminate].
  apply terms_raise in H as (m & _ & H). unfold vote_count_term in H.
  destruct (m_vote_count m); simpl in H; congruence.
Qed.

Lemma genre_records_raise top stats e :
  Forall (fun p => Forall (fun m => m_rating m <> Missing) (snd p)) stats ->
  genre_records top stats = Raise e -> e = TypeError.
Proof.
  induction 1 as [|[g l] rest Hl Hrest IH]; cbn [genre_records]; [discriminate|].
  cbn [snd] in Hl. destruct l as [|m l]; [exact IH|].
  intros H. apply bind_Raise in H as [H | (s & _ & H)].
  - eapply genre_record_raise; eassumption.
  - apply bind_Raise in H as [H | (ss & _ & H)]; [auto | discriminate].
Qed.

Lemma shaped_never_key_error gm movies top e :
  Forall (fetched_shape gm) movies ->
  calculate_stats movies top = Raise e -> e = TypeError.
Proof.
  intros Hshape H. rewrite Forall_forall in Hshape. unfold calculate_stats in H.
  apply bind_Raise in H as [H | (r & Hgroup & H)].
  { eapply group_movies_raise; [|exact H]. apply Forall_forall. intros m Hm.
    destruct (Hshape m Hm) as (_ & _ & _ & _ & _ & _ & names & Hn & _). eauto. }
  pose proof (group_movies_spec _ _ _ _ Hgroup) as Hr. simpl in Hr. subst r.
  cbn [fst snd] in H. apply bind_Raise in H as [H | (u & _ & H)].
  { assert (Hlog : log_skipped (List.filter excluded movies) = Ok tt).
    { apply log_skipped_Ok, Forall_forall. intros m Hm.
      apply list_elem_of_In, filter_In in Hm as [Hm _]. apply list_elem_of_In in Hm.
      destruct (Hshape m Hm) as (Ht & _ & _ & _ & _ & _ & names & Hn & _). eauto. }
    congruence. }
  eapply genre_records_raise; [|exact H]. apply Forall_forall. intros [g l] Hin.
  cbn [snd]. apply stats_of_groups in Hin as [-> _]. apply Forall_forall. intros m Hm.
  apply group_of_elem_iff, memberships_elem in Hm as (Hm & _ & _).
  apply (Hshape m Hm).
Qed.

(** X9.  Applied to the list a fetcher returned, [calculate_stats] raises no
    [KeyError]: the only exception left is the [TypeError] of a [None]
    among the numbers. *)
Theorem fetched_movies_raise_no_key_error (popular : Z -> Response)
    (discover : Z -> Z -> Response) (genre_map : GenreMap) (pages target top_count : Z)
    (items : list Movie) (e : pyerr) :
  Fetcher.get_popular_movies popular genre_map pages = Ok items
  \/ Fetcher.get_representative_movies discover genre_map target = Ok items ->
  calculate_stats items top_count = Raise e ->
  e = TypeError.
Proof.
  intros Hfetch. apply (shaped_never_key_error genre_map).
  destruct Hfetch as [H | H].
  - eapply FetcherAccounting.popular_items_shape, H.
  - eapply FetcherAccounting.representative_items_shape, H.
Qed.

Lemma fetched_movies_raise_no_key_error_witness : TypeError = TypeError.
Proof.
  apply (fetched_movies_raise_no_key_error
           (fun _ => Samples.page_of [Samples.no_popularity])
           (fun _ _ => Samples.page_of [Samples.no_popularity])
           Samples.genre_map 1 1 10 [Samples.ran] TypeError).
  - left. reflexivity.
  - reflexivity.
Defined.

(** *** What a record holds *)



Lemma fold_add_from l : forall a, fold_left Z.add l a = a + fold_left Z.add l 0.
Proof.
  induction l as [|y rest IH]; intros a; cbn [fold_left]; [lia|].
  rewrite (IH (a + y)), (IH (0 + y)). lia.
Qed.

Lemma sumZ_cons x l : sumZ (x :: l) = x + sumZ l.
Proof. unfold sumZ. cbn [fold_left]. rewrite fold_add_from. lia. Qed.




(** *** What [top_movies] holds *)

Lemma top_movies_prefix movies top out s :
  calculate_stats movies top = Ok out -> s ∈ out ->
  exists k, top_movies s = take k (ranking (group_of (genre_name s) (memberships movies))).
Proof.
  intros H Hs. destruct (calculate_stats_record _ _ _ _ H Hs) as [_ Hrec].
  apply genre_record_fields in Hrec as (_ & _ & ->). apply slice_to_take.
Qed.

(** X11.  Every movie in a record's [top_movies] is a movie of the input that
    passed the filter and lists the record's genre. *)
Theorem top_movies_belong_to_genre (movies : list Movie) (top_count : Z)
    (out : list GenreStats) (s : GenreStats) (m : Movie) :
  calculate_stats movies top_count = Ok out ->
  s ∈ out ->
  m ∈ top_movies s ->
  m ∈ movies /\ qualifying m = true /\ genre_name s ∈ genre_list m.
Proof.
  intros H Hs Hm. destruct (top_movies_prefix _ _ _ _ H Hs) as [k Hk].
  rewrite Hk in Hm. apply subseteq_take in Hm. rewrite ranking_perm in Hm.
  apply group_of_elem, memberships_elem in Hm. exact Hm.
Qed.

Lemma top_movies_belong_to_genre_witness :
  Samples.movie 1 (8 # 1) 10 ["Action"] ∈ Samples.shelf
  /\ qualifying (Samples.movie 1 (8 # 1) 10 ["Action"]) = true
  /\ genre_name Samples.action_record ∈ genre_list (Samples.movie 1 (8 # 1) 10 ["Action"]).
Proof.
  apply (top_movies_belong_to_genre Samples.shelf 10 [Samples.action_record]
           Samples.action_record (Samples.movie 1 (8 # 1) 10 ["Action"]) eq_refl).
  - left.
  - left.
Defined.

Lemma rating_ge_trans : Transitive rating_ge.
Proof. intros x y z Hxy Hyz. unfold rating_ge in *. eapply Qle_trans; eassumption. Qed.

(** X12.  The movies of a group left out of [top_movies] are rated no higher
    than any movie in it. *)
Theorem top_movies_dominate_the_rest (movies : list Movie) (top_count : Z)
    (out : list GenreStats) (s : GenreStats) :
  calculate_stats movies top_count = Ok out ->
  s ∈ out ->
  exists rest,
    top_movies s ++ rest ≡ₚ group_of (genre_name s) (memberships movies)
    /\ forall m m', m ∈ top_movies s -> m' ∈ rest ->
                    (rating_value m' <= rating_value m)%Q.
Proof.
  intros H Hs. destruct (top_movies_prefix _ _ _ _ H Hs) as [k Hk].
  set (group := group_of (genre_name s) (memberships movies)) in *.
  exists (drop k (ranking group)). rewrite Hk, take_drop.
  split; [apply ranking_perm|].
  intros m m' Hm Hm'.
  pose proof (Sorted.Sorted_StronglySorted rating_ge_trans (ranking_sorted group))
    as Hsorted.
  rewrite <- (take_drop k (ranking group)) in Hsorted.
  exact (StronglySorted_app_1_elem_of _ _ _ _ _ Hsorted Hm Hm').
Qed.

Lemma top_movies_dominate_the_rest_witness :
  exists rest,
    top_movies Samples.action_record ++ rest
      ≡ₚ group_of (genre_name Samples.action_record) (memberships Samples.shelf)
    /\ forall m m', m ∈ top_movies Samples.action_record -> m' ∈ rest ->
                    (rating_value m' <= rating_value m)%Q.
Proof.
  apply (top_movies_dominate_the_rest Samples.shelf 10 [Samples.action_record]
           Samples.action_record eq_refl).
  left.
Defined.

(** X13.  With a negative [top_count] the slice drops movies from the end of
    the ranking: [top_movies] is the ranking without its last
    [-top_count] movies, and is empty when the group has no more than
    that. *)
Theorem negative_top_count_drops_the_last (movies : list Movie) (top_count : Z)
    (out : list GenreStats) (s : GenreStats) :
  top_count < 0 ->
  calculate_stats movies top_count = Ok out ->
  s ∈ out ->
  Z.of_nat (length (top_movies s)) = Z.max 0 (movie_count s + top_count)
  /\ top_movies s
     = take (Z.to_nat (movie_count s + top_count))
         (ranking (group_of (genre_name s) (memberships movies))).
Proof.
  intros Hneg H Hs. destruct (calculate_stats_record _ _ _ _ H Hs) as [_ Hrec].
  apply genre_record_fields in Hrec as (_ & Hcount & Htop).
  assert (Htake : top_movies s
    = take (Z.to_nat (movie_count s + top_count))
        (ranking (group_of (genre_name s) (memberships movies)))).
  { rewrite Htop, Hcount. unfold slice_to.
    destruct (0 <=? top_count) eqn:E; [apply Z.leb_le in E; lia|].
    rewrite ranking_length. reflexivity. }
  split; [|exact Htake].
  rewrite Htake, length_take, ranking_length. lia.
Qed.

Lemma negative_top_count_drops_the_last_witness :
  calculate_stats Samples.shelf (-1)
  = Ok [ {| genre_name := "Action";
            average_rating := (7 # 1)%Q;
            average_popularity := 0%Q;
            total_votes := 15;
            movie_count := 2;
            top_movies := [Samples.movie 1 (8 # 1) 10 ["Action"]] |} ]
  /\ Z.of_nat (length [Samples.movie 1 (8 # 1) 10 ["Action"]]) = Z.max 0 (2 + -1).
Proof.
  split; [reflexivity|].
  apply (negative_top_count_drops_the_last Samples.shelf (-1)
           [ {| genre_name := "Action";
                average_rating := (7 # 1)%Q;
                average_popularity := 0%Q;
                total_votes := 15;
                movie_count := 2;
                top_movies := [Samples.movie 1 (8 # 1) 10 ["Action"]] |} ]
           {| genre_name := "Action";
              average_rating := (7 # 1)%Q;
              average_popularity := 0%Q;
              total_votes := 15;
              movie_count := 2;
              top_movies := [Samples.movie 1 (8 # 1) 10 ["Action"]] |}).
  - lia.
  - reflexivity.
  - left.
Defined.

(** *** Counting memberships *)

Lemma total_size_append stats g m :
  total_size (stats_append stats g m) = S (total_size stats).
Proof.
  unfold total_size. induction stats as [|[k l] rest IH]; cbn [stats_append sum_list_with snd].
  - reflexivity.
  - destruct (decide (k = g)); cbn [sum_list_with snd].
    + rewrite length_app. cbn [length]. lia.
    + rewrite IH. lia.
Qed.

Lemma total_size_stats_of pairs : forall stats,
  total_size (stats_of pairs stats) = (total_size stats + length pairs)%nat.
Proof.
  induction pairs as [|[g m] rest IH]; intros stats; cbn [length]; [unfold stats_of; simpl; lia|].
  change (stats_of ((g, m) :: rest) stats) with (stats_of rest (stats_append stats g m)).
  rewrite IH, total_size_append. lia.
Qed.

Lemma records_total_size top stats out :
  Forall2 (fun p s => genre_record top (fst p) (snd p) = Ok s) stats out ->
  sumZ (map movie_count out) = Z.of_nat (total_size stats).
Proof.
  unfold total_size.
  induction 1 as [|[g l] s stats out Hps Hrest IH]; [reflexivity|].
  cbn [map sum_list_with snd]. rewrite sumZ_cons, IH.
  apply genre_record_fields in Hps as (_ & -> & _). cbn [snd]. lia.
Qed.

Lemma memberships_length ms :
  length (memberships ms)
  = sum_list_with (fun m => length (genre_list m)) (List.filter qualifying ms).
Proof.
  unfold memberships. induction (List.filter qualifying ms) as [|m rest IH]; [reflexivity|].
  cbn [flat_map sum_list_with]. rewrite length_app, length_map, IH. reflexivity.
Qed.

(** X14.  The movie counts of the records add up to the number of genre names
    carried by the movies that passed the filter: every such name files
    its movie in exactly one record. *)
Theorem movie_counts_add_up (movies : list Movie) (top_count : Z)
    (out : list GenreStats) :
  calculate_stats movies top_count = Ok out ->
  sumZ (map movie_count out)
  = Z.of_nat (sum_list_with (fun m => length (genre_list m))
                (List.filter qualifying movies)).
Proof.
  intros H. apply calculate_stats_spec in H as (_ & _ & Hall).
  rewrite (records_total_size _ _ _ Hall), total_size_stats_of, memberships_length.
  reflexivity.
Qed.

Lemma movie_counts_add_up_witness :
  sumZ (map movie_count [Samples.action_record])
  = Z.of_nat (sum_list_with (fun m => length (genre_list m))
                (List.filter qualifying Samples.shelf)).
Proof.
  apply (movie_counts_add_up Samples.shelf 10 [Samples.action_record]).
  reflexivity.
Defined.

End AggregatorAccounting.

(** ** Properties of the publisher *)

Module PublisherFacts.
Import Aggregator Publisher Accounting.

(** *** Batches *)

Lemma chunks_concat {A : Type} (step : nat) (c : nat) : forall l : list A,
  (length l <= c * step)%nat ->
  concat (map (fun i => slice i step l) (map (fun k => k * step)%nat (seq 0 c))) = l.
Proof.
  induction c as [|c IH]; intros l Hlen.
  - destruct l; [reflexivity | simpl in Hlen; lia].
  - change (seq 0 (S c)) with (0%nat :: seq 1 c).
    rewrite <- seq_shift. cbn [map concat]. rewrite !map_map.
    transitivity (take step l ++ drop step l); [|apply take_drop].
    f_equal.
    etransitivity; [|apply (IH (drop step l)); rewrite length_drop; lia].
    rewrite map_map. f_equal. apply map_ext. intros k.
    unfold slice. rewrite drop_drop. reflexivity.
Qed.

Lemma range_by_covers n : (n <= ((n + batch_size - 1) / batch_size) * batch_size)%nat.
Proof.
  unfold batch_size.
  pose proof (Nat.div_mod_eq (n + 500 - 1) 500) as Hdiv.
  pose proof (Nat.mod_upper_bound (n + 500 - 1) 500 ltac:(lia)) as Hmod.
  lia.
Qed.

Lemma movie_batches_concat movies :
  concat (movie_batches movies) = map movie_write movies.
Proof.
  unfold movie_batches, range_by.
  transitivity (map movie_write
    (concat (map (fun i => slice i batch_size movies)
               (map (fun k => (k * batch_size)%nat)
                  (seq 0 ((length movies + batch_size - 1) / batch_size))))));
    [|rewrite chunks_concat by apply range_by_covers; reflexivity].
  generalize (map (fun k => (k * batch_size)%nat)
                (seq 0 ((length movies + batch_size - 1) / batch_size))).
  intros offsets. induction offsets as [|i rest IH]; [reflexivity|].
  cbn [map concat]. rewrite map_app, IH. reflexivity.
Qed.

Lemma movie_batches_lookup movies j b :
  movie_batches movies !! j = Some b ->
  b = map movie_write (slice (j * batch_size) batch_size movies)
  /\ (j < (length movies + batch_size - 1) / batch_size)%nat.
Proof.
  unfold movie_batches, range_by. rewrite !list_lookup_fmap. intros H.
  destruct (seq 0 ((length movies + batch_size - 1) / batch_size) !! j) as [k|] eqn:Hk;
    [|discriminate].
  apply lookup_seq in Hk as [-> Hlt]. simpl in H. injection H as <-.
  split; [reflexivity | exact Hlt].
Qed.

(** X15.  [upload_to_firebase] commits the movies in batches that keep their
    order and lose nothing; every such batch holds between 1 and 500
    writes, and 500 unless it is the last of them.  It then commits one
    more batch with a write per genre record, whatever their number,
    also when there is none. *)
Theorem upload_commits_in_batches (lower : string -> string)
    (movies : list Movie) (stats : list GenreStats) :
  upload_to_firebase lower movies stats
    = movie_batches movies ++ [map (genre_write lower) stats]
  /\ concat (movie_batches movies) = map movie_write movies
  /\ length (movie_batches movies) = ((length movies + 499) / 500)%nat
  /\ forall j b,
       movie_batches movies !! j = Some b ->
       (0 < length b <= 500)%nat
       /\ ((S j < length (movie_batches movies))%nat -> length b = 500%nat).
Proof.
  split; [reflexivity|]. split; [apply movie_batches_concat|].
  assert (Hcount : length (movie_batches movies) = ((length movies + 499) / 500)%nat).
  { unfold movie_batches, range_by, batch_size. rewrite !length_map, length_seq.
    f_equal. lia. }
  split; [exact Hcount|].
  intros j b Hb. apply movie_batches_lookup in Hb as [-> Hj].
  rewrite Hcount. unfold slice, batch_size in *.
  rewrite length_map, length_take, length_drop.
  replace (length movies + 500 - 1)%nat with (length movies + 499)%nat in Hj by lia.
  pose proof (Nat.div_mod_eq (length movies + 499) 500) as Hdiv.
  pose proof (Nat.mod_upper_bound (length movies + 499) 500 ltac:(lia)) as Hmod.
  lia.
Qed.

Lemma upload_commits_in_batches_witness :
  (0 < length (map movie_write Samples.shelf) <= 500)%nat.
Proof.
  pose proof (upload_commits_in_batches (fun name => name) Samples.shelf [])
    as (_ & _ & _ & Hsizes).
  apply (Hsizes 0%nat (map movie_write Samples.shelf)).
  reflexivity.
Defined.

(** *** The store after the commits *)

Lemma commit_lookup ws : forall store key,
  commit store ws !! key = match last_write key ws with
                           | Some d => Some d
                           | None => store !! key
                           end.
Proof.
  induction ws as [|w rest IH]; intros store key; [reflexivity|].
  cbn [commit fold_left last_write]. fold (commit (apply_write store w) rest).
  rewrite IH. destruct (last_write key rest); [reflexivity|].
  unfold apply_write. rewrite lookup_insert.
  destruct (decide ((collection w, document w) = key)); reflexivity.
Qed.

Lemma commit_all_concat batches : forall store,
  commit_all store batches = commit store (concat batches).
Proof.
  induction batches as [|b rest IH]; intros store; [reflexivity|].
  cbn [commit_all fold_left concat]. fold (commit_all (commit store b) rest).
  rewrite IH. unfold commit. rewrite fold_left_app. reflexivity.
Qed.

Lemma last_write_app key ws1 ws2 :
  last_write key (ws1 ++ ws2)
  = match last_write key ws2 with
    | Some d => Some d
    | None => last_write key ws1
    end.
Proof.
  induction ws1 as [|w rest IH]; cbn [app last_write].
  - destruct (last_write key ws2); reflexivity.
  - rewrite IH. destruct (last_write key ws2); reflexivity.
Qed.

Lemma last_write_other_collection key ws :
  Forall (fun w => collection w <> fst key) ws -> last_write key ws = None.
Proof.
  induction 1 as [|w rest Hw Hrest IH]; [reflexivity|].
  cbn [last_write]. rewrite IH.
  destruct (decide ((collection w, document w) = key)) as [<-|_]; [|reflexivity].
  contradiction.
Qed.

Lemma last_write_unique {A : Type} (write : A -> Write) (name : A -> string) col l x :
  (forall y, collection (write y) = col) ->
  (forall y, document (write y) = name y) ->
  NoDup (map name l) -> x ∈ l ->
  last_write (col, name x) (map write l) = Some (data (write x)).
Proof.
  intros Hcol Hdoc. induction l as [|y rest IH]; intros Hn Hx.
  - apply elem_of_nil in Hx. contradiction.
  - cbn [map] in Hn. apply NoDup_cons in Hn as [Hy Hn].
    cbn [map last_write]. apply elem_of_cons in Hx as [-> | Hx].
    + assert (Hnone : last_write (col, name y) (map write rest) = None).
      { clear IH Hn. induction rest as [|z rest IH]; [reflexivity|].
        cbn [map last_write]. rewrite IH.
        - rewrite Hcol, Hdoc.
          destruct (decide ((col, name z) = (col, name y))) as [Heq|_]; [|reflexivity].
          injection Heq as Heq. exfalso. apply Hy. cbn [map]. rewrite Heq. left.
        - intros Hin. apply Hy. right. exact Hin. }
      rewrite Hnone, Hcol, Hdoc.
      destruct (decide ((col, name y) = (col, name y))); [reflexivity | contradiction].
    + rewrite (IH Hn Hx). reflexivity.
Qed.

Lemma last_write_is_Some key ws :
  is_Some (last_write key ws)
  <-> exists w, w ∈ ws /\ (collection w, document w) = key.
Proof.
  induction ws as [|w rest IH]; cbn [last_write].
  - split; [intros [d H]; discriminate | intros (w & Hw & _)].
    apply elem_of_nil in Hw. contradiction.
  - destruct (last_write key rest) as [d|].
    + split; [|eauto]. intros _. destruct (proj1 IH (mk_is_Some _ _ eq_refl)) as (w' & Hw' & Hk).
      exists w'. split; [right; exact Hw' | exact Hk].
    + destruct (decide ((collection w, document w) = key)) as [Hk|Hk].
      * split; [|eauto]. intros _. exists w. split; [left | exact Hk].
      * split; [intros [d H]; discriminate|].
        intros (w' & Hw' & Hk'). apply elem_of_cons in Hw' as [-> | Hw'].
        -- contradiction.
        -- apply IH. eauto.
Qed.

Lemma upload_writes lower movies stats :
  concat (upload_to_firebase lower movies stats)
  = map movie_write movies ++ map (genre_write lower) stats.
Proof.
  unfold upload_to_firebase. rewrite concat_app, movie_batches_concat.
  cbn [concat]. rewrite app_nil_r. reflexivity.
Qed.

Lemma upload_reads_movie lower movies stats store m :
  NoDup (map m_id movies) -> m ∈ movies ->
  commit_all store (upload_to_firebase lower movies stats)
    !! ("movies", pretty (m_id m)) = Some (MovieDoc m).
Proof.
  intros Hn Hm. rewrite commit_all_concat, commit_lookup, upload_writes, last_write_app.
  rewrite last_write_other_collection
    by (apply Forall_forall; intros w Hw; apply list_elem_of_fmap in Hw as (s & -> & _);
        discriminate).
  rewrite (last_write_unique movie_write (fun y => pretty (m_id y)) "movies" movies m);
    [reflexivity | reflexivity | reflexivity | | exact Hm].
  rewrite <- (map_map m_id pretty). apply NoDup_fmap_2; [apply _ | exact Hn].
Qed.

(** X16.  After an upload every movie can be read back under its id, provided
    no two uploaded movies share an id; every genre record can be read
    back under its lowered name, provided no two records share one; and
    documents of other collections are as they were. *)
Theorem upload_then_read (lower : string -> string) (movies : list Movie)
    (stats : list GenreStats) (store : gmap (string * string) Document) :
  (NoDup (map m_id movies) ->
     forall m, m ∈ movies ->
       commit_all store (upload_to_firebase lower movies stats)
         !! ("movies", pretty (m_id m)) = Some (MovieDoc m))
  /\ (NoDup (map (fun s => lower (genre_name s)) stats) ->
       forall s, s ∈ stats ->
         commit_all store (upload_to_firebase lower movies stats)
           !! ("genres", lower (genre_name s)) = Some (GenreDoc s))
  /\ (forall col doc, col <> "movies" -> col <> "genres" ->
       commit_all store (upload_to_firebase lower movies stats) !! (col, doc)
       = store !! (col, doc)).
Proof.
  split; [|split].
  - intros Hn m Hm. apply upload_reads_movie; assumption.
  - intros Hn s Hs. rewrite commit_all_concat, commit_lookup, upload_writes, last_write_app.
    rewrite (last_write_unique (genre_write lower) (fun y => lower (genre_name y))
               "genres" stats s); [reflexivity | reflexivity | reflexivity | exact Hn | exact Hs].
  - intros col doc Hm Hg.
    rewrite commit_all_concat, commit_lookup, upload_writes, last_write_app.
    rewrite !last_write_other_collection; [reflexivity| |];
      apply Forall_forall; intros w Hw; apply list_elem_of_fmap in Hw as (x & -> & _);
      cbn; congruence.
Qed.

Lemma upload_then_read_witness :
  commit_all ∅ (upload_to_firebase (fun name => name) Samples.shelf [Samples.action_record])
    !! ("movies", pretty 2) = Some (MovieDoc (Samples.movie 2 (6 # 1) 5 ["Action"]))
  /\ commit_all ∅ (upload_to_firebase (fun name => name) Samples.shelf [Samples.action_record])
       !! ("genres", "Action") = Some (GenreDoc Samples.action_record).
Proof.
  pose proof (upload_then_read (fun name => name) Samples.shelf [Samples.action_record] ∅)
    as (Hmovies & Hgenres & _).
  split.
  - apply (Hmovies ltac:(apply (bool_decide_unpack _); vm_compute; exact I)
             (Samples.movie 2 (6 # 1) 5 ["Action"])).
    right. left.
  - apply (Hgenres ltac:(apply (bool_decide_unpack _); vm_compute; exact I)
             Samples.action_record).
    left.
Defined.

(** X17.  Uploading the same data a second time leaves the store as the first
    upload left it. *)
Theorem upload_twice_is_upload_once (lower : string -> string) (movies : list Movie)
    (stats : list GenreStats) (store : gmap (string * string) Document) :
  commit_all (commit_all store (upload_to_firebase lower movies stats))
    (upload_to_firebase lower movies stats)
  = commit_all store (upload_to_firebase lower movies stats).
Proof.
  apply map_eq. intros key. rewrite !commit_all_concat, !commit_lookup.
  destruct (last_write key (concat (upload_to_firebase lower movies stats))); reflexivity.
Qed.

(** *** Clearing the store *)

Lemma recursive_delete_lookup col store c d :
  recursive_delete col store !! (c, d)
  = if decide (c = col) then None else store !! (c, d).
Proof.
  unfold recursive_delete. destruct (decide (c = col)) as [->|Hne].
  - apply map_lookup_filter_None. destruct (store !! (col, d)) as [x|]; [right | left; reflexivity].
    intros y _ Hy. apply Hy. reflexivity.
  - destruct (store !! (c, d)) as [x|] eqn:Hx.
    + apply map_lookup_filter_Some. split; [exact Hx | exact Hne].
    + apply map_lookup_filter_None. left. exact Hx.
Qed.

Lemma clear_firestore_lookup store c d :
  clear_firestore store !! (c, d)
  = if decide (c = "movies" \/ c = "genres") then None else store !! (c, d).
Proof.
  unfold clear_firestore. cbn [fold_left]. rewrite !recursive_delete_lookup.
  destruct (decide (c = "genres")) as [->|Hg].
  - destruct (decide ("genres" = "movies" \/ "genres" = "genres")) as [_|Hn];
      [reflexivity | exfalso; apply Hn; right; reflexivity].
  - destruct (decide (c = "movies")) as [->|Hm].
    + destruct (decide ("movies" = "movies" \/ "movies" = "genres")) as [_|Hn];
        [reflexivity | exfalso; apply Hn; left; reflexivity].
    + destruct (decide (c = "movies" \/ c = "genres")) as [[H|H]|_];
        [contradiction | contradiction | reflexivity].
Qed.

(** X18.  After [clear_firestore] and an upload, the two collections hold a
    document exactly under the names the upload wrote: no document of an
    earlier run survives.  Other collections are untouched. *)
Theorem clear_then_upload_holds_only_uploaded (lower : string -> string)
    (movies : list Movie) (stats : list GenreStats)
    (store : gmap (string * string) Document) (doc : string) :
  (is_Some (commit_all (clear_firestore store) (upload_to_firebase lower movies stats)
              !! ("movies", doc))
   <-> exists m, m ∈ movies /\ pretty (m_id m) = doc)
  /\ (is_Some (commit_all (clear_firestore store) (upload_to_firebase lower movies stats)
                !! ("genres", doc))
     <-> exists s, s ∈ stats /\ lower (genre_name s) = doc)
  /\ (forall col, col <> "movies" -> col <> "genres" ->
       commit_all (clear_firestore store) (upload_to_firebase lower movies stats)
         !! (col, doc) = store !! (col, doc)).
Proof.
  assert (Hlookup : forall col,
    commit_all (clear_firestore store) (upload_to_firebase lower movies stats) !! (col, doc)
    = match last_write (col, doc)
              (map movie_write movies ++ map (genre_write lower) stats) with
      | Some d => Some d
      | None => if decide (col = "movies" \/ col = "genres") then None
                else store !! (col, doc)
      end).
  { intros col. rewrite commit_all_concat, commit_lookup, upload_writes,
      clear_firestore_lookup. reflexivity. }
  split; [|split].
  - rewrite Hlookup.
    destruct (decide ("movies" = "movies" \/ "movies" = "genres")) as [_|Hn];
      [|exfalso; apply Hn; left; reflexivity].
    transitivity (is_Some (last_write ("movies", doc)
                    (map movie_write movies ++ map (genre_write lower) stats))).
    { destruct (last_write _ _); [reflexivity|]. split; intros [d H]; discriminate. }
    rewrite last_write_is_Some. split.
    + intros (w & Hw & Hk). apply elem_of_app in Hw as [Hw | Hw].
      * apply list_elem_of_fmap in Hw as (m & -> & Hm). exists m.
        split; [exact Hm|]. injection Hk as Hk. exact Hk.
      * apply list_elem_of_fmap in Hw as (s & -> & _). discriminate.
    + intros (m & Hm & Hdoc). exists (movie_write m).
      split; [apply elem_of_app; left; apply list_elem_of_fmap; eauto|].
      cbn. rewrite Hdoc. reflexivity.
  - rewrite Hlookup.
    destruct (decide ("genres" = "movies" \/ "genres" = "genres")) as [_|Hn];
      [|exfalso; apply Hn; right; reflexivity].
    transitivity (is_Some (last_write ("genres", doc)
                    (map movie_write movies ++ map (genre_write lower) stats))).
    { destruct (last_write _ _); [reflexivity|]. split; intros [d H]; discriminate. }
    rewrite last_write_is_Some. split.
    + intros (w & Hw & Hk). apply elem_of_app in Hw as [Hw | Hw].
      * apply list_elem_of_fmap in Hw as (m & -> & _). discriminate.
      * apply list_elem_of_fmap in Hw as (s & -> & Hs). exists s.
        split; [exact Hs|]. injection Hk as Hk. exact Hk.
    + intros (s & Hs & Hdoc). exists (genre_write lower s).
      split; [apply elem_of_app; right; apply list_elem_of_fmap; eauto|].
      cbn. rewrite Hdoc. reflexivity.
  - intros col Hm Hg. rewrite Hlookup, last_write_app.
    rewrite !last_write_other_collection;
      [| apply Forall_forall; intros w Hw; apply list_elem_of_fmap in Hw as (x & -> & _);
         cbn; congruence ..].
    destruct (decide (col = "movies" \/ col = "genres")) as [[H|H]|_];
      [contradiction | contradiction | reflexivity].
Qed.

End PublisherFacts.

(** ** Properties of the whole run *)

Module RunFacts.
Import Aggregator Fetcher Catalog Publisher Reference Accounting.
Import FetcherFacts FetcherAccounting AggregatorFacts AggregatorAccounting PublisherFacts.

(** X19.  When the genre list request is answered with a status other than
    200, the run requests no page, writes no document, and commits one
    empty batch. *)
Theorem run_without_genres_writes_nothing (lower : string -> string)
    (response : GenresResponse) (discover : Z -> Z -> Response) :
  genres_status response <> 200 ->
  main lower response discover = Ok [[]].
Proof.
  intros Hstatus. apply Z.eqb_neq in Hstatus.
  unfold main, fetch_genre_map. rewrite Hstatus. reflexivity.
Qed.

Lemma run_without_genres_writes_nothing_witness :
  main (fun name => name) Fixtures.refused Samples.discover_heat = Ok [[]].
Proof.
  apply run_without_genres_writes_nothing. vm_compute. discriminate.
Defined.

Lemma top_movies_at_most top movies out :
  0 <= top -> calculate_stats movies top = Ok out ->
  Forall (fun s => Z.of_nat (length (top_movies s)) <= top) out.
Proof.
  intros Htop H. apply Forall_forall. intros s Hs.
  destruct (calculate_stats_record _ _ _ _ H Hs) as [_ Hrec].
  apply genre_record_fields in Hrec as (_ & _ & ->).
  rewrite slice_to_length by exact Htop. lia.
Qed.

(** X20.  A run that returns has uploaded movies with pairwise distinct ids,
    at most 100 per genre of the map, and genre records of at most 10
    top movies each; after its commits every uploaded movie can be read
    back from the store under its id. *)
Theorem run_uploads_what_it_fetched (lower : string -> string)
    (response : GenresResponse) (discover : Z -> Z -> Response)
    (batches : list (list Write)) :
  main lower response discover = Ok batches ->
  exists genre_map raw_data genre_stats,
    fetch_genre_map response = Ok genre_map
    /\ get_representative_movies discover genre_map 100 = Ok raw_data
    /\ calculate_stats raw_data 10 = Ok genre_stats
    /\ batches = upload_to_firebase lower raw_data genre_stats
    /\ NoDup (map m_id raw_data)
    /\ Z.of_nat (length raw_data) <= 100 * Z.of_nat (length genre_map)
    /\ Forall (fun s => Z.of_nat (length (top_movies s)) <= 10) genre_stats
    /\ forall store m, m ∈ raw_data ->
         commit_all store batches !! ("movies", pretty (m_id m)) = Some (MovieDoc m).
Proof.
  unfold main. intros H.
  apply bind_Ok in H as (gm & Hgm & H). apply bind_Ok in H as (raw & Hraw & H).
  apply bind_Ok in H as (stats & Hstats & H). injection H as <-.
  exists gm, raw, stats.
  split; [exact Hgm|]. split; [exact Hraw|]. split; [exact Hstats|]. split; [reflexivity|].
  unfold get_representative_movies in Hraw. apply bind_Ok in Hraw as (st & Hrun & Hraw).
  injection Hraw as <-. unfold representative_run in Hrun.
  assert (Hnodup : NoDup (map m_id (processed_movies st))).
  { apply (representative_genres_coherent _ _ _ _ _ _ _ Hrun coherent_initial). }
  split; [exact Hnodup|]. split.
  - pose proof (representative_genres_quota _ _ _ _ _ _ _ Hrun) as Hq.
    pose proof (representative_genres_remembers _ _ _ _ _ _ _ Hrun) as [_ Hd].
    unfold load in Hq. simpl in Hq, Hd. lia.
  - split; [apply (top_movies_at_most 10 _ _ ltac:(lia) Hstats)|].
    intros store m Hm. apply upload_reads_movie; assumption.
Qed.

Lemma run_uploads_what_it_fetched_witness :
  exists genre_map raw_data genre_stats,
    fetch_genre_map Fixtures.listed_genres = Ok genre_map
    /\ get_representative_movies Samples.discover_heat genre_map 100 = Ok raw_data
    /\ calculate_stats raw_data 10 = Ok genre_stats
    /\ Fixtures.heat_batches = upload_to_firebase (fun name => name) raw_data genre_stats
    /\ NoDup (map m_id raw_data)
    /\ Z.of_nat (length raw_data) <= 100 * Z.of_nat (length genre_map)
    /\ Forall (fun s => Z.of_nat (length (top_movies s)) <= 10) genre_stats
    /\ forall store m, m ∈ raw_data ->
         commit_all store Fixtures.heat_batches !! ("movies", pretty (m_id m))
         = Some (MovieDoc m).
Proof.
  apply (run_uploads_what_it_fetched (fun name => name) Fixtures.listed_genres
           Samples.discover_heat Fixtures.heat_batches).
  vm_compute. reflexivity.
Defined.

(** *** The exceptions of a run *)

Lemma collect_genres_raise genres e : forall acc,
  collect_genres genres acc = Raise e -> e = KeyError "id" \/ e = KeyError "name".
Proof.
  induction genres as [|g rest IH]; intros acc H; cbn [collect_genres] in H; [discriminate|].
  destruct (g_id g); [|injection H as <-; left; reflexivity].
  destruct (g_name g); [eapply IH, H | injection H as <-; right; reflexivity].
Qed.

Lemma make_movie_raise i names m e :
  make_movie i names m = Raise e -> e = KeyError "title" \/ e = KeyError "vote_average".
Proof.
  unfold make_movie.
  destruct (r_title m); simpl; [intros H; injection H as <-; left; reflexivity|..];
    (destruct (r_vote_average m); simpl;
     [intros H; injection H as <-; right; reflexivity | discriminate | discriminate]).
Qed.

Lemma representative_entries_raise gm target ms e : forall st collected,
  representative_entries gm target ms st collected = Raise e ->
  e = KeyError "id" \/ e = KeyError "title" \/ e = KeyError "vote_average".
Proof.
  induction ms as [|m rest IH]; intros st c H; cbn [representative_entries] in H;
    [discriminate|].
  destruct (target <=? c); [discriminate|].
  apply bind_Raise in H as [H | (i & _ & H)].
  { unfold entry_id in H. destruct (r_id m); [discriminate|].
    injection H as <-. left. reflexivity. }
  destruct (decide (i ∈ seen_ids st)); [eapply IH, H|].
  apply bind_Raise in H as [H | (mv & _ & H)]; [|eapply IH, H].
  right. eapply make_movie_raise, H.
Qed.

Lemma representative_pages_raise fetch gm target gid pages e : forall st collected,
  representative_pages fetch gm target gid pages st collected = Raise e ->
  e = KeyError "id" \/ e = KeyError "title" \/ e = KeyError "vote_average".
Proof.
  induction pages as [|page rest IH]; intros st c H; cbn [representative_pages] in H;
    [discriminate|].
  destruct (target <=? c); [discriminate|].
  destruct (status_code (fetch gid page) =? 200); [|discriminate].
  destruct (results_or_empty (fetch gid page)) as [|m ms]; [discriminate|].
  apply bind_Raise in H as [H | ([st1 c1] & _ & H)].
  - eapply representative_entries_raise, H.
  - eapply IH, H.
Qed.

Lemma representative_genres_raise fetch gm target pages genres e : forall st,
  representative_genres fetch gm target pages genres st = Raise e ->
  e = KeyError "id" \/ e = KeyError "title" \/ e = KeyError "vote_average".
Proof.
  induction genres as [|[gid name] rest IH]; intros st H;
    cbn [representative_genres] in H; [discriminate|].
  apply bind_Raise in H as [H | (st1 & _ & H)].
  - eapply representative_pages_raise, H.
  - eapply IH, H.
Qed.

(** X21.  A run ends with an exception only for what the API delivered: a
    genre entry without "id" or "name", a raw entry without "id",
    "title" or "vote_average", or a [None] among the numbers that are
    aggregated.  The keys read with a subscript further down ("genres",
    "rating", "title" of a movie) never fail. *)
Theorem run_raises_only_for_api_data (lower : string -> string)
    (response : GenresResponse) (discover : Z -> Z -> Response) (e : pyerr) :
  main lower response discover = Raise e ->
  e = TypeError
  \/ e = KeyError "id" \/ e = KeyError "name"
  \/ e = KeyError "title" \/ e = KeyError "vote_average".
Proof.
  unfold main. intros H. apply bind_Raise in H as [H | (gm & _ & H)].
  { unfold fetch_genre_map in H.
    destruct (genres_status response =? 200); [|discriminate].
    apply collect_genres_raise in H as [-> | ->]; auto. }
  apply bind_Raise in H as [H | (raw & Hraw & H)].
  { unfold get_representative_movies in H.
    apply bind_Raise in H as [H | (st & _ & H)]; [|discriminate].
    apply representative_genres_raise in H as [-> | [-> | ->]]; auto. }
  apply bind_Raise in H as [H | (stats & _ & H)]; [|discriminate].
  left. eapply shaped_never_key_error; [|exact H].
  eapply representative_items_shape, Hraw.
Qed.

Lemma run_raises_only_for_api_data_witness :
  KeyError "name" = TypeError
  \/ KeyError "name" = KeyError "id" \/ KeyError "name" = KeyError "name"
  \/ KeyError "name" = KeyError "title" \/ KeyError "name" = KeyError "vote_average".
Proof.
  apply (run_raises_only_for_api_data (fun name => name) Fixtures.nameless_genre
           Samples.discover_heat).
  reflexivity.
Defined.

End RunFacts.
